(** * ToIStact-AI: tolerance stack-up and hole-fit engines

    Shallow embedding of the calculation engines of the repository, the
    linear stack-up memo [results] of [App] and the hole-fit memo
    [analysis] of [HoleFitCalculator] with the unit toggle
    [handleToggleUnit], and of the code around them: the list handlers of
    [App], the loop diagram, the bell curve, the XML escaping of the
    export and the narrative service.

    Numbers.  The TypeScript [number] type is modelled in two ways.

    - By the real numbers [R], for the sums, bands and probability of the
      linear engine and for the geometry of the pictures: [+ - * /] are the
      field operations, [Math.sqrt] is [sqrt], [Math.exp] is [exp],
      [Math.abs] is [Rabs], [Math.min] is [Rmin] and [Math.pow(x, 2)] /
      [x ** 2] is [x ^ 2].  Rounding error, NaN and the infinities are
      outside this model.

    - By IEEE 754 binary64 values (module [Binary64]), for the statuses and
      flags that the hole-fit memo decides by comparing computed
      differences and for the decimals that the unit toggle keeps, where
      the rounding of each operation matters. *)

From Stdlib Require Import Reals Lra List ZArith String Zfloor.
From Stdlib Require Import Lia Ascii DecimalString Permutation SpecFloat.
Import ListNotations.
Open Scope R_scope.

(** The TypeScript [number] type. *)
Abbreviation number := R (only parsing).

(** JavaScript [a || b] on numbers: [b] when [a] is falsy, that is zero. *)
Definition num_or (a b : number) : number :=
  if Req_dec_T a 0 then b else a.

(** Sum of a list of numbers. *)
Definition sumR (l : list number) : number := fold_right Rplus 0 l.

(** ** Linear stack-up (types.ts and the [results] memo of [App]) *)

Module Linear.

Inductive DimensionType : Type :=
  | INCREASING
  | DECREASING.

Definition DimensionType_eqb (a b : DimensionType) : bool :=
  match a, b with
  | INCREASING, INCREASING => true
  | DECREASING, DECREASING => true
  | _, _ => false
  end.

Record Dimension : Type := mkDimension {
  id : string;
  name : string;
  nominal : number;
  tolerancePlus : number;
  toleranceMinus : number;
  type : DimensionType;
  description : option string
}.

Record StackupResult : Type := mkStackupResult {
  nominalGap : number;
  worstCaseMin : number;
  worstCaseMax : number;
  rssMin : number;
  rssMax : number;
  contributors : nat;
  interferenceProb : number
}.

(** The mutable accumulators that the [forEach] loop of [results] updates. *)
Record Sums : Type := mkSums {
  rssSumSquares : number;
  sumIncNom : number;
  sumDecNom : number;
  sumIncMax : number;
  sumIncMin : number;
  sumDecMax : number;
  sumDecMin : number
}.

Definition sums0 : Sums := mkSums 0 0 0 0 0 0 0.

(** One iteration of [dimensions.forEach(d => ...)]. *)
Definition forEach_body (s : Sums) (d : Dimension) : Sums :=
  let s' :=
    if DimensionType_eqb (type d) INCREASING then
      mkSums (rssSumSquares s)
             (sumIncNom s + nominal d)
             (sumDecNom s)
             (sumIncMax s + (nominal d + tolerancePlus d))
             (sumIncMin s + (nominal d - toleranceMinus d))
             (sumDecMax s)
             (sumDecMin s)
    else
      mkSums (rssSumSquares s)
             (sumIncNom s)
             (sumDecNom s + nominal d)
             (sumIncMax s)
             (sumIncMin s)
             (sumDecMax s + (nominal d + tolerancePlus d))
             (sumDecMin s + (nominal d - toleranceMinus d)) in
  let avgTol := (tolerancePlus d + toleranceMinus d) / 2 in
  mkSums (rssSumSquares s' + avgTol ^ 2)
         (sumIncNom s') (sumDecNom s') (sumIncMax s') (sumIncMin s')
         (sumDecMax s') (sumDecMin s').

(** The callback of [dimensions.reduce(..., 0)]. *)
Definition reduce_body (acc : number) (d : Dimension) : number :=
  let t := (tolerancePlus d + toleranceMinus d) / 2 in
  acc + t * t.

(** [rssTol]: the root-sum-square tolerance computed inside [results]. *)
Definition rssTol (dimensions : list Dimension) : number :=
  sqrt (fold_left reduce_body dimensions 0).

(** The body of the [if (sigma > 0)] branch: the rational-polynomial
    approximation of the normal cumulative distribution, in percent. *)
Definition normalTail (zScore : number) : number :=
  let t := 1 / (1 + 0.2316419 * Rabs zScore) in
  let d := 0.3989423 * exp (- zScore * zScore / 2) in
  let p := d * t * (0.3193815 + t * (-0.3565638 + t * (1.781478
             + t * (-1.821256 + t * 1.330274)))) in
  let p := if Rlt_dec 0 zScore then 1 - p else p in
  p * 100.

(** [sigma] and [zScore] as [results] computes them. *)
Definition sigma_of (dimensions : list Dimension) : number :=
  rssTol dimensions / 3.

Definition zScore_of (nominalGap sigma : number) : number :=
  (0 - nominalGap) / num_or sigma 0.001.

(** The [results] memo of [App], as a function of [dimensions]. *)
Definition results (dimensions : list Dimension) : StackupResult :=
  let s := fold_left forEach_body dimensions sums0 in
  let nominalGap := sumIncNom s - sumDecNom s in
  let wcMax := sumIncMax s - sumDecMin s in
  let wcMin := sumIncMin s - sumDecMax s in
  let rssTol := rssTol dimensions in
  let sigma := rssTol / 3 in
  let zScore := zScore_of nominalGap sigma in
  let prob := if Rlt_dec 0 sigma then normalTail zScore else 0 in
  {| nominalGap := nominalGap;
     worstCaseMin := wcMin;
     worstCaseMax := wcMax;
     rssMin := nominalGap - rssTol;
     rssMax := nominalGap + rssTol;
     contributors := List.length dimensions;
     interferenceProb := prob |}.

(** The specification's name for the operation. *)
Definition computeStackup : list Dimension -> StackupResult := results.

(** [INITIAL_DIMENSIONS] of [App]: the 4-dimension scenario. *)
Definition INITIAL_DIMENSIONS : list Dimension :=
  [ mkDimension "1" "Housing Cavity Depth" 20.00 0.2 0.2 INCREASING
      (Some "Main enclosure depth"%string);
    mkDimension "2" "PCB Thickness" 1.60 0.1 0.1 DECREASING
      (Some "FR4 Board"%string);
    mkDimension "3" "Standoff Height" 5.00 0.05 0.05 DECREASING
      (Some "Metal standoff"%string);
    mkDimension "4" "Battery Thickness" 12.50 0.3 0.1 DECREASING
      (Some "LiPo Pouch cell"%string) ].

(** *** Reference definition, following the specification's wording *)

Definition increasing (l : list Dimension) : list Dimension :=
  filter (fun d => DimensionType_eqb (type d) INCREASING) l.

Definition decreasing (l : list Dimension) : list Dimension :=
  filter (fun d => DimensionType_eqb (type d) DECREASING) l.

Definition upper (d : Dimension) : number := nominal d + tolerancePlus d.
Definition lower (d : Dimension) : number := nominal d - toleranceMinus d.
Definition symTol (d : Dimension) : number :=
  (tolerancePlus d + toleranceMinus d) / 2.

Definition spec_nominalGap (l : list Dimension) : number :=
  sumR (map nominal (increasing l)) - sumR (map nominal (decreasing l)).

Definition spec_worstCaseMax (l : list Dimension) : number :=
  sumR (map upper (increasing l)) - sumR (map lower (decreasing l)).

Definition spec_worstCaseMin (l : list Dimension) : number :=
  sumR (map lower (increasing l)) - sumR (map upper (decreasing l)).

Definition spec_rssTolerance (l : list Dimension) : number :=
  sqrt (sumR (map (fun d => (symTol d)²) l)).

(** *** Auxiliary definitions for the statements *)

(** The polynomial factor of [normalTail]. *)
Definition poly (t : number) : number :=
  0.3193815 + t * (-0.3565638 + t * (1.781478
    + t * (-1.821256 + t * 1.330274))).

(** Width of the worst-case band of a result. *)
Definition wcWidth (r : StackupResult) : number :=
  worstCaseMax r - worstCaseMin r.

(** Width of the RSS band of a result. *)
Definition rssWidth (r : StackupResult) : number :=
  rssMax r - rssMin r.

(** [{ ...d, tolerancePlus: v }] and [{ ...d, toleranceMinus: v }], the
    objects that [updateDimension] builds for the two tolerance fields. *)
Definition setTolerancePlus (d : Dimension) (v : number) : Dimension :=
  mkDimension (id d) (name d) (nominal d) v (toleranceMinus d) (type d)
    (description d).

Definition setToleranceMinus (d : Dimension) (v : number) : Dimension :=
  mkDimension (id d) (name d) (nominal d) (tolerancePlus d) v (type d)
    (description d).

(** Both tolerances of a dimension are non-negative magnitudes. *)
Definition nonnegTol (d : Dimension) : Prop :=
  0 <= tolerancePlus d /\ 0 <= toleranceMinus d.

(** A dimension with a negative plus tolerance, which the editor accepts. *)
Definition negTolDim : Dimension :=
  mkDimension "n" "Shim" 10 (-1) 0 INCREASING None.

End Linear.

(** ** Hole fit ([HoleFitCalculator]) *)

(** Comparison [a > b] of two numbers as a boolean. *)
Definition gtb (a b : number) : bool :=
  if Rgt_dec a b then true else false.

Module HoleFit.

Inductive AssemblyType : Type :=
  | FLOATING
  | FIXED.

Inductive Unit : Type :=
  | MM
  | INCH.

Record PartDimension : Type := mkPartDimension {
  nominal : number;
  tolPlus : number;
  tolMinus : number;
  tpSpec : number
}.

Record Deviation : Type := mkDeviation {
  x : number;
  y : number
}.

(** The declared type of [status] is ['SAFE' | 'RISK' | 'FAIL']. *)
Inductive Status : Type :=
  | SAFE
  | RISK
  | FAIL.

(** The object returned by the [analysis] memo.  The [recommendation]
    string, a display text built with [toFixed(4)] and the unit name, is
    left out. *)
Record Analysis : Type := mkAnalysis {
  pinMMC : number;
  h1MMC : number;
  maxAllowableTP : number;
  status : Status;
  actualTP : number;
  isSimulationInterference : bool;
  radialClearance : number;
  actualOffset : number
}.

(** The [analysis] memo of [HoleFitCalculator], as a function of the state
    it depends on. *)
Definition analysis (mode : AssemblyType) (pin hole1 hole2 : PartDimension)
    (deviation : Deviation) : Analysis :=
  let pinMMC := nominal pin + tolPlus pin in
  let h1MMC := nominal hole1 - tolMinus hole1 in
  let h2MMC := nominal hole2 - tolMinus hole2 in
  let actualOffset := sqrt (x deviation ^ 2 + y deviation ^ 2) in
  let actualTP := 2 * actualOffset in
  let '(maxAllowableTP, status) :=
    match mode with
    | FLOATING =>
        let clearance1 := h1MMC - pinMMC in
        let clearance2 := h2MMC - pinMMC in
        let limitingClearance := Rmin clearance1 clearance2 in
        (limitingClearance,
         if orb (gtb (tpSpec hole1) clearance1) (gtb (tpSpec hole2) clearance2)
         then FAIL else SAFE)
    | FIXED =>
        let totalBudget := h1MMC - pinMMC in
        let combinedSpec := tpSpec hole1 + tpSpec hole2 in
        (totalBudget / 2,
         if gtb combinedSpec totalBudget then FAIL else SAFE)
    end in
  let radialClearance := (h1MMC - pinMMC) / 2 in
  let isSimulationInterference := gtb actualOffset radialClearance in
  {| pinMMC := pinMMC;
     h1MMC := h1MMC;
     maxAllowableTP := maxAllowableTP;
     status := status;
     actualTP := actualTP;
     isSimulationInterference := isSimulationInterference;
     radialClearance := radialClearance;
     actualOffset := actualOffset |}.

(** The specification's name for the operation, with its argument order. *)
Definition computeFit (pin hole1 hole2 : PartDimension) (mode : AssemblyType)
    (deviation : Deviation) : Analysis :=
  analysis mode pin hole1 hole2 deviation.

(** The four outputs of the misalignment simulation. *)
Definition simulation (a : Analysis) : number * number * number * bool :=
  (actualOffset a, actualTP a, radialClearance a, isSimulationInterference a).

(** [HOLE_SCENARIOS]: the M6 floating and M8 fixed scenarios. *)
Definition m6_pin : PartDimension := mkPartDimension 6.00 0.00 0.10 0.
Definition m6_hole : PartDimension := mkPartDimension 6.60 0.20 0.00 0.50.
Definition m8_pin : PartDimension := mkPartDimension 8.00 0.00 0.15 0.
Definition m8_hole1 : PartDimension := mkPartDimension 9.00 0.25 0.00 0.40.
Definition m8_hole2 : PartDimension := mkPartDimension 8.00 0.00 0.00 0.40.

(** *** Unit toggle *)

(** [parseFloat(v.toFixed(precision))]: [toFixed] picks the integer [n]
    with [n / 10^precision] closest to [v], the larger [n] on a tie, after
    taking the sign off a negative [v]. *)
Definition toFixed (v : number) (precision : nat) : number :=
  let scale := 10 ^ precision in
  if Rlt_dec v 0
  then - (IZR (Zfloor (- v * scale + / 2)) / scale)
  else IZR (Zfloor (v * scale + / 2)) / scale.

Definition toggled (unit : Unit) : Unit :=
  match unit with MM => INCH | INCH => MM end.

Definition factor (newUnit : Unit) : number :=
  match newUnit with MM => 25.4 | INCH => 1 / 25.4 end.

Definition precision (newUnit : Unit) : nat :=
  match newUnit with MM => 3%nat | INCH => 4%nat end.

(** The local function [cvt] of [handleToggleUnit], given the new unit. *)
Definition cvt (newUnit : Unit) (val : number) : number :=
  toFixed (val * factor newUnit) (precision newUnit).

Definition cvtPart (newUnit : Unit) (p : PartDimension) : PartDimension :=
  {| nominal := cvt newUnit (nominal p);
     tolPlus := cvt newUnit (tolPlus p);
     tolMinus := cvt newUnit (tolMinus p);
     tpSpec := cvt newUnit (tpSpec p) |}.

(** The component state that [handleToggleUnit] reads and updates. *)
Record State : Type := mkState {
  unit : Unit;
  mode : AssemblyType;
  pin : PartDimension;
  hole1 : PartDimension;
  hole2 : PartDimension;
  deviation : Deviation
}.

Definition handleToggleUnit (st : State) : State :=
  let newUnit := toggled (unit st) in
  {| unit := newUnit;
     mode := mode st;
     pin := cvtPart newUnit (pin st);
     hole1 := cvtPart newUnit (hole1 st);
     hole2 := cvtPart newUnit (hole2 st);
     deviation := {| x := cvt newUnit (x (deviation st));
                     y := cvt newUnit (y (deviation st)) |} |}.

End HoleFit.

(** ** Binary64 numbers

    The comparisons of the hole-fit memo and the decimals kept by the unit
    toggle depend on the rounding of binary64 arithmetic.  For these the
    [number] type is modelled by the IEEE 754 binary64 values of
    [SpecFloat] (53 bits of precision, one NaN), with its correctly rounded
    operations. *)

Module Binary64.
Local Open Scope Z_scope.

Definition prec : Z := 53.
Definition emax : Z := 1024.

Definition add : spec_float -> spec_float -> spec_float := SFadd prec emax.
Definition sub : spec_float -> spec_float -> spec_float := SFsub prec emax.
Definition mul : spec_float -> spec_float -> spec_float := SFmul prec emax.
Definition div : spec_float -> spec_float -> spec_float := SFdiv prec emax.
Definition sqrt : spec_float -> spec_float := SFsqrt prec emax.

(** [a > b]; false when an operand is NaN. *)
Definition gt (a b : spec_float) : bool := SFltb b a.

(** The number that stands for an integer, rounded if it needs more than
    53 bits. *)
Definition of_Z (n : Z) : spec_float := binary_normalize prec emax n 0 false.

(** The quotient of two integers, the first one signed by [s], rounded
    once: the value of the decimal text [n / 10^p]. *)
Definition decimal (s : bool) (n : positive) (p : nat) : spec_float :=
  div (S754_finite s n 0) (of_Z (10 ^ Z.of_nat p)).

(** A decimal literal of the source: [lit 660 2] is [6.60]. *)
Definition lit (n : Z) (p : nat) : spec_float :=
  match n with
  | Z0 => S754_zero false
  | Zpos m => decimal false m p
  | Zneg m => decimal true m p
  end.

(** [v ** 2] and [Math.pow(v, 2)], taken as the correctly rounded square. *)
Definition sqr (v : spec_float) : spec_float := mul v v.

(** [Math.min(a, b)]: NaN when an operand is NaN, and the negative zero is
    the smaller zero. *)
Definition Math_min (a b : spec_float) : spec_float :=
  match a, b with
  | S754_nan, _ | _, S754_nan => S754_nan
  | _, _ =>
      if SFltb a b then a
      else if SFltb b a then b
      else match a, b with
           | S754_zero true, _ => a
           | _, S754_zero true => b
           | _, _ => a
           end
  end.

(** The integer [n] for which [n / 10^p] is closest to [m * 2^e], the
    larger one on a tie: the digits that [toFixed(p)] prints. *)
Definition units (m : positive) (e : Z) (p : nat) : Z :=
  let a := Zpos m * 10 ^ Z.of_nat p in
  match e with
  | Zneg k => (2 * a + 2 ^ Zpos k) / 2 ^ (Zpos k + 1)
  | _ => a * 2 ^ e
  end.

(** [parseFloat(v.toFixed(p))].  [toFixed] takes the sign off, prints the
    digits of [units] and puts the sign back; from [1e21] on, and for NaN
    and the infinities, it prints the number itself, which [parseFloat]
    reads back unchanged. *)
Definition toFixed (v : spec_float) (p : nat) : spec_float :=
  match v with
  | S754_nan => S754_nan
  | S754_infinity _ => v
  | S754_zero _ => S754_zero false
  | S754_finite s m e =>
      if SFleb (of_Z (10 ^ 21)) (SFabs v) then v
      else match units m e p with
           | Zpos n => decimal s n p
           | _ => S754_zero s
           end
  end.

End Binary64.

(** ** Hole fit in binary64 *)

Module HoleFit64.
Import Binary64.

Record PartDimension : Type := mkPartDimension {
  nominal : spec_float;
  tolPlus : spec_float;
  tolMinus : spec_float;
  tpSpec : spec_float
}.

Record Deviation : Type := mkDeviation {
  x : spec_float;
  y : spec_float
}.

(** The object returned by the [analysis] memo, without the
    [recommendation] text. *)
Record Analysis : Type := mkAnalysis {
  pinMMC : spec_float;
  h1MMC : spec_float;
  maxAllowableTP : spec_float;
  status : HoleFit.Status;
  actualTP : spec_float;
  isSimulationInterference : bool;
  radialClearance : spec_float;
  actualOffset : spec_float
}.

(** The [analysis] memo of [HoleFitCalculator] on binary64 numbers. *)
Definition analysis (mode : HoleFit.AssemblyType)
    (pin hole1 hole2 : PartDimension) (deviation : Deviation) : Analysis :=
  let pinMMC := add (nominal pin) (tolPlus pin) in
  let h1MMC := sub (nominal hole1) (tolMinus hole1) in
  let h2MMC := sub (nominal hole2) (tolMinus hole2) in
  let actualOffset := sqrt (add (sqr (x deviation)) (sqr (y deviation))) in
  let actualTP := mul (of_Z 2) actualOffset in
  let '(maxAllowableTP, status) :=
    match mode with
    | HoleFit.FLOATING =>
        let clearance1 := sub h1MMC pinMMC in
        let clearance2 := sub h2MMC pinMMC in
        let limitingClearance := Math_min clearance1 clearance2 in
        (limitingClearance,
         if orb (gt (tpSpec hole1) clearance1) (gt (tpSpec hole2) clearance2)
         then HoleFit.FAIL else HoleFit.SAFE)
    | HoleFit.FIXED =>
        let totalBudget := sub h1MMC pinMMC in
        let combinedSpec := add (tpSpec hole1) (tpSpec hole2) in
        (div totalBudget (of_Z 2),
         if gt combinedSpec totalBudget then HoleFit.FAIL else HoleFit.SAFE)
    end in
  let radialClearance := div (sub h1MMC pinMMC) (of_Z 2) in
  let isSimulationInterference := gt actualOffset radialClearance in
  {| pinMMC := pinMMC;
     h1MMC := h1MMC;
     maxAllowableTP := maxAllowableTP;
     status := status;
     actualTP := actualTP;
     isSimulationInterference := isSimulationInterference;
     radialClearance := radialClearance;
     actualOffset := actualOffset |}.

(** The specification's name for the operation, with its argument order. *)
Definition computeFit (pin hole1 hole2 : PartDimension)
    (mode : HoleFit.AssemblyType) (deviation : Deviation) : Analysis :=
  analysis mode pin hole1 hole2 deviation.

(** [HOLE_SCENARIOS]: the M6 floating and M8 fixed entries. *)
Definition m6_pin : PartDimension :=
  mkPartDimension (lit 600 2) (lit 0 2) (lit 10 2) (lit 0 0).
Definition m6_hole : PartDimension :=
  mkPartDimension (lit 660 2) (lit 20 2) (lit 0 2) (lit 50 2).
Definition m8_pin : PartDimension :=
  mkPartDimension (lit 800 2) (lit 0 2) (lit 15 2) (lit 0 0).
Definition m8_hole1 : PartDimension :=
  mkPartDimension (lit 900 2) (lit 25 2) (lit 0 2) (lit 40 2).
Definition m8_hole2 : PartDimension :=
  mkPartDimension (lit 800 2) (lit 0 2) (lit 0 2) (lit 40 2).

(** *** Unit toggle *)

Definition factor (newUnit : HoleFit.Unit) : spec_float :=
  match newUnit with
  | HoleFit.MM => lit 254 1
  | HoleFit.INCH => div (of_Z 1) (lit 254 1)
  end.

(** The local function [cvt] of [handleToggleUnit], given the new unit. *)
Definition cvt (newUnit : HoleFit.Unit) (val : spec_float) : spec_float :=
  toFixed (mul val (factor newUnit)) (HoleFit.precision newUnit).

Definition cvtPart (newUnit : HoleFit.Unit) (p : PartDimension)
    : PartDimension :=
  {| nominal := cvt newUnit (nominal p);
     tolPlus := cvt newUnit (tolPlus p);
     tolMinus := cvt newUnit (tolMinus p);
     tpSpec := cvt newUnit (tpSpec p) |}.

(** The component state that [handleToggleUnit] reads and updates. *)
Record State : Type := mkState {
  unit : HoleFit.Unit;
  mode : HoleFit.AssemblyType;
  pin : PartDimension;
  hole1 : PartDimension;
  hole2 : PartDimension;
  deviation : Deviation
}.

Definition handleToggleUnit (st : State) : State :=
  let newUnit := HoleFit.toggled (unit st) in
  {| unit := newUnit;
     mode := mode st;
     pin := cvtPart newUnit (pin st);
     hole1 := cvtPart newUnit (hole1 st);
     hole2 := cvtPart newUnit (hole2 st);
     deviation := {| x := cvt newUnit (x (deviation st));
                     y := cvt newUnit (y (deviation st)) |} |}.

(** [DEFAULT_STATE], in millimetres. *)
Definition DEFAULT_STATE : State :=
  mkState HoleFit.MM HoleFit.FLOATING
    (mkPartDimension (lit 600 2) (lit 0 2) (lit 1 1) (lit 0 0))
    (mkPartDimension (lit 660 2) (lit 2 1) (lit 0 1) (lit 5 1))
    (mkPartDimension (lit 660 2) (lit 2 1) (lit 0 1) (lit 5 1))
    (mkDeviation (lit 1 1) (lit 1 1)).

End HoleFit64.

(** ** Handlers of [App] *)

Module App.
Import Linear.

(** Decimal rendering of a length inside a template string. *)
Definition nat_to_string (n : nat) : string :=
  NilEmpty.string_of_uint (Nat.to_uint n).

(** [addDimension].  The identifier comes from [generateId], which draws
    on [Math.random]; it is an argument here. *)
Definition addDimension (newId : string) (dimensions : list Dimension)
    : list Dimension :=
  let newDim :=
    mkDimension newId
      ("New Component " ++ nat_to_string (List.length dimensions + 1))
      10.0 0.1 0.1 INCREASING None in
  dimensions ++ [newDim].

(** A [field] of [Dimension] together with the [value] to store in it. *)
Inductive FieldValue : Type :=
  | F_id (value : string)
  | F_name (value : string)
  | F_nominal (value : number)
  | F_tolerancePlus (value : number)
  | F_toleranceMinus (value : number)
  | F_type (value : DimensionType)
  | F_description (value : option string).

(** [{ ...d, [field]: value }]. *)
Definition setField (d : Dimension) (fv : FieldValue) : Dimension :=
  match fv with
  | F_id v =>
      mkDimension v (name d) (nominal d) (tolerancePlus d) (toleranceMinus d)
        (type d) (description d)
  | F_name v =>
      mkDimension (Linear.id d) v (nominal d) (tolerancePlus d)
        (toleranceMinus d) (type d) (description d)
  | F_nominal v =>
      mkDimension (Linear.id d) (name d) v (tolerancePlus d)
        (toleranceMinus d) (type d) (description d)
  | F_tolerancePlus v =>
      mkDimension (Linear.id d) (name d) (nominal d) v (toleranceMinus d)
        (type d) (description d)
  | F_toleranceMinus v =>
      mkDimension (Linear.id d) (name d) (nominal d) (tolerancePlus d) v
        (type d) (description d)
  | F_type v =>
      mkDimension (Linear.id d) (name d) (nominal d) (tolerancePlus d)
        (toleranceMinus d) v (description d)
  | F_description v =>
      mkDimension (Linear.id d) (name d) (nominal d) (tolerancePlus d)
        (toleranceMinus d) (type d) v
  end.

(** [updateDimension]: every dimension whose id is [id] gets the field. *)
Definition updateDimension (id : string) (fv : FieldValue)
    (dimensions : list Dimension) : list Dimension :=
  map (fun d => if negb (String.eqb (Linear.id d) id) then d
                else setField d fv) dimensions.

(** [removeDimension]: keeps the dimensions whose id differs from [id]. *)
Definition removeDimension (id : string) (dimensions : list Dimension)
    : list Dimension :=
  filter (fun d => negb (String.eqb (Linear.id d) id)) dimensions.

(** The fields of a dimension that the calculation reads. *)
Definition sameNumbers (d d' : Dimension) : Prop :=
  nominal d = nominal d' /\ tolerancePlus d = tolerancePlus d' /\
  toleranceMinus d = toleranceMinus d' /\ type d = type d'.

(** Both tolerances equal and non-negative: a symmetric [±t] tolerance. *)
Definition symmetricTol (d : Dimension) : Prop :=
  tolerancePlus d = toleranceMinus d /\ 0 <= tolerancePlus d.

(** All tolerances of a dimension are zero. *)
Definition zeroTol (d : Dimension) : Prop :=
  tolerancePlus d = 0 /\ toleranceMinus d = 0.

(** What one dimension adds to the nominal gap and to the two worst-case
    bounds: its own value for INCREASING, the opposite for DECREASING. *)
Definition gapPart (d : Dimension) : number :=
  if DimensionType_eqb (type d) INCREASING then nominal d else - nominal d.

Definition wcMaxPart (d : Dimension) : number :=
  if DimensionType_eqb (type d) INCREASING then upper d else - lower d.

Definition wcMinPart (d : Dimension) : number :=
  if DimensionType_eqb (type d) INCREASING then lower d else - upper d.

(** The edits that do not touch a number or the direction. *)
Definition labelEdit (fv : FieldValue) : bool :=
  match fv with
  | F_id _ | F_name _ | F_description _ => true
  | _ => false
  end.

End App.

(** ** Loop diagram ([StackVisualizer]) *)

Module StackVisualizer.
Import Linear.

(** [{ ...d, width }]: a dimension with the width of its bar. *)
Record Item : Type := mkItem {
  dim : Dimension;
  width : number
}.

(** What the [useMemo] of the component returns. *)
Record Scaling : Type := mkScaling {
  increasing : list Item;
  decreasing : list Item;
  scale : number
}.

Definition scaling (dimensions : list Dimension) : Scaling :=
  let itemsData := map (fun d => mkItem d (nominal d)) dimensions in
  let increasingList :=
    filter (fun d => DimensionType_eqb (type (dim d)) INCREASING) itemsData in
  let decreasingList :=
    filter (fun d => DimensionType_eqb (type (dim d)) DECREASING) itemsData in
  let totalInc := fold_left (fun acc cur => acc + width cur) increasingList 0 in
  let totalDec := fold_left (fun acc cur => acc + width cur) decreasingList 0 in
  let maxW := Rmax totalInc totalDec * 1.2 in
  let safeMaxW := if Req_dec_T maxW 0 then 100 else maxW in
  {| increasing := increasingList;
     decreasing := decreasingList;
     scale := 800 / safeMaxW |}.

Definition height : number := 250.
Definition width_px : number := 800.
Definition padding : number := 20.
Definition barHeight : number := 40.

(** The rectangle of one bar: its left edge, its top and its width. *)
Record Bar : Type := mkBar {
  bar_x : number;
  bar_y : number;
  bar_w : number
}.

(** One step of [increasing.map]: draw at [cursorX], then advance it. *)
Definition increasingStep (scale : number) (st : number * list Bar)
    (d : Item) : number * list Bar :=
  let '(cursorX, els) := st in
  let w := width d * scale in
  (cursorX + w, els ++ [mkBar cursorX 50 w]).

(** One step of [decreasing.map]: move [cursorBackX] back, then draw. *)
Definition decreasingStep (scale : number) (st : number * list Bar)
    (d : Item) : number * list Bar :=
  let '(cursorBackX, els) := st in
  let w := width d * scale in
  let cursorBackX := cursorBackX - w in
  (cursorBackX, els ++ [mkBar cursorBackX 120 w]).

(** The geometry that the render pass derives. *)
Record Drawing : Type := mkDrawing {
  increasingEls : list Bar;
  decreasingEls : list Bar;
  endOfIncreasingX : number;
  pointA : number;
  pointC : number;
  gapPixelWidth : number;
  isInterference : bool
}.

Definition render (dimensions : list Dimension) : Drawing :=
  let s := scaling dimensions in
  let '(cursorX, incEls) :=
    fold_left (increasingStep (scale s)) (increasing s) (padding, []) in
  let endOfIncreasingX := cursorX in
  let '(cursorBackX, decEls) :=
    fold_left (decreasingStep (scale s)) (decreasing s)
      (endOfIncreasingX, []) in
  let pointC := cursorBackX in
  let pointA := padding in
  let gapPixelWidth := pointC - pointA in
  {| increasingEls := incEls;
     decreasingEls := decEls;
     endOfIncreasingX := endOfIncreasingX;
     pointA := pointA;
     pointC := pointC;
     gapPixelWidth := gapPixelWidth;
     isInterference := if Rlt_dec gapPixelWidth 0 then true else false |}.

(** The larger of the two row totals, which fixes the sign of the scale. *)
Definition longestRow (dimensions : list Dimension) : number :=
  Rmax (sumR (map nominal (Linear.increasing dimensions)))
       (sumR (map nominal (Linear.decreasing dimensions))).

End StackVisualizer.

(** ** Bell curve ([StatisticalChart]) *)

Module StatisticalChart.
Import Linear.

(** One entry of [data]. *)
Record Point : Type := mkPoint {
  val : number;
  density : number
}.

Definition mean (result : StackupResult) : number := nominalGap result.

Definition sigma (result : StackupResult) : number :=
  (mean result - rssMin result) / 3.

Definition steps : nat := 50.

(** The body of the [for] loop of [generateBellCurveData] at index [i].
    For [sigma = 0] JavaScript computes [0 / 0], a NaN; the statements
    about this function assume a non-zero [sigma]. *)
Definition bellPoint (result : StackupResult) (i : nat) : Point :=
  let start := mean result - 4 * sigma result in
  let end_ := mean result + 4 * sigma result in
  let stepSize := (end_ - start) / INR steps in
  let x := start + INR i * stepSize in
  let exponent := -0.5 * ((x - mean result) / sigma result) ^ 2 in
  let density := exp exponent in
  {| val := HoleFit.toFixed x 4;
     density := HoleFit.toFixed density 4 |}.

(** [for (let i = 0; i <= steps; i++) data.push(...)]. *)
Definition generateBellCurveData (result : StackupResult) : list Point :=
  map (bellPoint result) (seq 0 (steps + 1)).

(** [gradientOffset], as a function of [data]. *)
Definition gradientOffset (data : list Point) : number :=
  match data with
  | [] => 0
  | p0 :: _ =>
      let minVal := val p0 in
      let maxVal := val (last data p0) in
      if Rle_dec maxVal 0 then 0
      else if Rge_dec minVal 0 then 1
      else (0 - minVal) / (maxVal - minVal)
  end.

(** The density column of the chart, which does not mention the result. *)
Definition shape (i : nat) : number :=
  HoleFit.toFixed (exp (-0.5 * (0.16 * INR i - 4) ^ 2)) 4.

End StatisticalChart.

(** ** Spreadsheet export (utils/excelGenerator.ts) *)

Module ExcelGenerator.
Import Linear.

(** [s.replace(/c/g, r)] for a single character [c]. *)
Fixpoint replaceAll (c : ascii) (r : string) (s : string) : string :=
  match s with
  | EmptyString => EmptyString
  | String a s' =>
      if Ascii.eqb a c then r ++ replaceAll c r s'
      else String a (replaceAll c r s')
  end.

(** The double-quote character. *)
Definition dquote : ascii := ascii_of_nat 34.

(** [escapeXML]; [None] stands for [undefined], and the empty string is
    falsy as well. *)
Definition escapeXML (str : option string) : string :=
  match str with
  | None => EmptyString
  | Some EmptyString => EmptyString
  | Some s =>
      replaceAll "'" "&apos;"
        (replaceAll dquote "&quot;"
           (replaceAll ">" "&gt;"
              (replaceAll "<" "&lt;"
                 (replaceAll "&" "&amp;" s))))
  end.

(** The five passes of [escapeXML]. *)
Definition passes (s : string) : string :=
  replaceAll "'" "&apos;"
    (replaceAll dquote "&quot;"
       (replaceAll ">" "&gt;"
          (replaceAll "<" "&lt;"
             (replaceAll "&" "&amp;" s)))).

(** The text that stands for one character after escaping. *)
Definition escapeChar (a : ascii) : string :=
  if Ascii.eqb a "&" then "&amp;"
  else if Ascii.eqb a "<" then "&lt;"
  else if Ascii.eqb a ">" then "&gt;"
  else if Ascii.eqb a dquote then "&quot;"
  else if Ascii.eqb a "'" then "&apos;"
  else String a EmptyString.

Fixpoint escapeString (s : string) : string :=
  match s with
  | EmptyString => EmptyString
  | String a s' => escapeChar a ++ escapeString s'
  end.

(** The characters that must not appear raw in XML text or attributes. *)
Definition markup (c : ascii) : bool :=
  Ascii.eqb c "<" || Ascii.eqb c ">" || Ascii.eqb c dquote || Ascii.eqb c "'".

End ExcelGenerator.

(** ** Narrative service (services/geminiService.ts) and [handleRunAI] *)

Module GeminiService.

(** A computation that returns a value or throws. *)
Inductive Result (A : Type) : Type :=
  | Returned (a : A)
  | Thrown.
Arguments Returned {A} a.
Arguments Thrown {A}.

(** JavaScript truthiness of a possibly undefined string. *)
Definition truthy (s : option string) : bool :=
  match s with
  | Some (String _ _) => true
  | _ => false
  end.

(** [a || b] on possibly undefined strings with a string default. *)
Definition str_or (a : option string) (b : string) : string :=
  match a with
  | Some (String c s) => String c s
  | _ => b
  end.

(** The outside world of the service: the environment variable, the
    client constructor and the remote call, each of which may throw where
    JavaScript allows it.  The client is represented by its key; the
    response by its [text], which may be undefined. *)
Record World : Type := mkWorld {
  API_KEY : option string;
  newGoogleGenAI : string -> Result string;
  generateContent : string -> string -> Result (option string)
}.

(** [getAIClient]: [null] without a key, otherwise the constructed client;
    the constructor runs outside any [try]. *)
Definition getAIClient (w : World) : Result (option string) :=
  match API_KEY w with
  | Some (String c s) =>
      match newGoogleGenAI w (String c s) with
      | Returned ai => Returned (Some ai)
      | Thrown => Thrown
      end
  | _ => Returned None
  end.

(** [analyzeStackupWithGemini], given the prompt text that it assembles
    from the dimensions and the result; the formatting of numbers into
    that text is not modelled. *)
Definition analyzeStackupWithGemini (w : World) (prompt : string)
    : Result string :=
  match getAIClient w with
  | Thrown => Thrown
  | Returned None =>
      Returned "API Key is missing. Please check configuration."%string
  | Returned (Some ai) =>
      match generateContent w ai prompt with
      | Returned text => Returned (str_or text "No analysis generated.")
      | Thrown =>
          Returned
            "Failed to generate AI analysis. Please try again later."%string
      end
  end.

(** [AIAnalysisResult] of types.ts. *)
Record AIAnalysisResult : Type := mkAIAnalysisResult {
  text : string;
  isLoading : bool;
  error : option string
}.

(** [handleRunAI]: the state while the call is pending and the state once
    it has settled. *)
Definition handleRunAI (w : World) (prompt : string)
    (prev : AIAnalysisResult) : AIAnalysisResult * AIAnalysisResult :=
  let pending := mkAIAnalysisResult (text prev) true None in
  let settled :=
    match analyzeStackupWithGemini w prompt with
    | Returned t => mkAIAnalysisResult t false None
    | Thrown =>
        mkAIAnalysisResult EmptyString false (Some "Analysis failed"%string)
    end in
  (pending, settled).

End GeminiService.

(** ** Actions and simulation picture of [HoleFitCalculator] *)

Module HoleFitUI.
Import HoleFit.

(** An entry of [HOLE_SCENARIOS]. *)
Record Scenario : Type := mkScenario {
  s_id : string;
  s_name : string;
  s_unit : Unit;
  s_mode : AssemblyType;
  s_pin : PartDimension;
  s_hole1 : PartDimension;
  s_hole2 : PartDimension
}.

Definition HOLE_SCENARIOS : list Scenario :=
  [ mkScenario "m6_float" "M6 Floating Fastener (Metric)" MM FLOATING
      (mkPartDimension 6.00 0.00 0.10 0)
      (mkPartDimension 6.60 0.20 0.00 0.50)
      (mkPartDimension 6.60 0.20 0.00 0.50);
    mkScenario "m8_fixed" "M8 Fixed/Threaded (Metric)" MM FIXED
      (mkPartDimension 8.00 0.00 0.15 0)
      (mkPartDimension 9.00 0.25 0.00 0.40)
      (mkPartDimension 8.00 0.00 0.00 0.40);
    mkScenario "quarter_inch" "1/4-20 Bolt (Inch)" INCH FLOATING
      (mkPartDimension 0.250 0.000 0.005 0)
      (mkPartDimension 0.266 0.010 0.000 0.015)
      (mkPartDimension 0.266 0.010 0.000 0.015) ].

(** [DEFAULT_STATE], with the unit that [handleReset] sets beside it. *)
Definition DEFAULT_STATE : State :=
  mkState MM FLOATING
    (mkPartDimension 6.00 0.00 0.1 0)
    (mkPartDimension 6.60 0.2 0.0 0.5)
    (mkPartDimension 6.60 0.2 0.0 0.5)
    (mkDeviation 0.1 0.1).

Definition handleReset (st : State) : State := DEFAULT_STATE.

(** [handleLoadScenario] for the selected [id]. *)
Definition handleLoadScenario (id : string) (st : State) : State :=
  match find (fun s => String.eqb (s_id s) id) HOLE_SCENARIOS with
  | None => st
  | Some scenario =>
      mkState (s_unit scenario) (s_mode scenario) (s_pin scenario)
        (s_hole1 scenario) (s_hole2 scenario) (mkDeviation 0 0)
  end.

(** The [analysis] memo on a state of the component. *)
Definition analysisOf (st : State) : Analysis :=
  analysis (mode st) (pin st) (hole1 st) (hole2 st) (deviation st).




(** Three unit toggles in a row. *)
Definition toggleThrice (st : State) : State :=
  handleToggleUnit (handleToggleUnit (handleToggleUnit st)).

End HoleFitUI.

(** * Properties of the linear stack-up *)

Module LinearFacts.
Import Linear.

Lemma sumR_cons (a : number) (l : list number) : sumR (a :: l) = a + sumR l.
Proof. reflexivity. Qed.

(** What the [forEach] loop leaves in each accumulator, from any start. *)
Lemma forEach_sums (dims : list Dimension) : forall s : Sums,
  let r := fold_left forEach_body dims s in
  sumIncNom r = sumIncNom s + sumR (map nominal (increasing dims)) /\
  sumDecNom r = sumDecNom s + sumR (map nominal (decreasing dims)) /\
  sumIncMax r = sumIncMax s + sumR (map upper (increasing dims)) /\
  sumIncMin r = sumIncMin s + sumR (map lower (increasing dims)) /\
  sumDecMax r = sumDecMax s + sumR (map upper (decreasing dims)) /\
  sumDecMin r = sumDecMin s + sumR (map lower (decreasing dims)).
Proof.
  induction dims as [|d dims IH]; intros s r.
  - subst r; cbn; repeat split; lra.
  - subst r. cbn [fold_left].
    specialize (IH (forEach_body s d)). cbv zeta in IH.
    destruct IH as (H1 & H2 & H3 & H4 & H5 & H6).
    rewrite H1, H2, H3, H4, H5, H6.
    unfold forEach_body, increasing, decreasing, upper, lower.
    cbn [filter].
    destruct (type d); cbn [DimensionType_eqb filter map sumR fold_right
      sumIncNom sumDecNom sumIncMax sumIncMin sumDecMax sumDecMin].
    all: unfold sumR; repeat split; lra.
Qed.

(** The [reduce] call sums the squared symmetrized tolerances. *)
Lemma reduce_sum (dims : list Dimension) : forall acc : number,
  fold_left reduce_body dims acc = acc + sumR (map (fun d => (symTol d)²) dims).
Proof.
  induction dims as [|d dims IH]; intros acc; cbn [fold_left map].
  - cbn; lra.
  - rewrite IH, sumR_cons. unfold reduce_body, symTol, Rsqr. lra.
Qed.

Lemma sumR_sqr_nonneg (dims : list Dimension) :
  0 <= sumR (map (fun d => (symTol d)²) dims).
Proof.
  induction dims as [|d dims IH]; cbn [map].
  - cbn; lra.
  - rewrite sumR_cons. pose proof (Rle_0_sqr (symTol d)). lra.
Qed.

Lemma rssTol_spec (dims : list Dimension) :
  rssTol dims = spec_rssTolerance dims.
Proof.
  unfold rssTol, spec_rssTolerance. rewrite reduce_sum. f_equal. lra.
Qed.

Lemma rssTol_nonneg (dims : list Dimension) : 0 <= rssTol dims.
Proof. unfold rssTol. apply sqrt_pos. Qed.

Lemma nominalGap_spec (dims : list Dimension) :
  nominalGap (results dims) = spec_nominalGap dims.
Proof.
  destruct (forEach_sums dims sums0) as (H1 & H2 & _).
  unfold results, spec_nominalGap; cbn [nominalGap].
  rewrite H1, H2. cbn. lra.
Qed.

Lemma worstCaseMax_spec (dims : list Dimension) :
  worstCaseMax (results dims) = spec_worstCaseMax dims.
Proof.
  destruct (forEach_sums dims sums0) as (_ & _ & H3 & _ & _ & H6).
  unfold results, spec_worstCaseMax; cbn [worstCaseMax].
  rewrite H3, H6. cbn. lra.
Qed.

Lemma worstCaseMin_spec (dims : list Dimension) :
  worstCaseMin (results dims) = spec_worstCaseMin dims.
Proof.
  destruct (forEach_sums dims sums0) as (_ & _ & _ & H4 & H5 & _).
  unfold results, spec_worstCaseMin; cbn [worstCaseMin].
  rewrite H4, H5. cbn. lra.
Qed.

(** A square-root enclosure: [lo < sqrt v < hi] from [lo² < v < hi²]. *)
Lemma sqrt_between (v lo hi : number) :
  0 <= lo -> 0 <= hi -> lo * lo < v -> v < hi * hi -> lo < sqrt v < hi.
Proof.
  intros Hlo Hhi H1 H2. split.
  - rewrite <- (sqrt_square lo) by assumption.
    apply sqrt_lt_1_alt. split; [nra | assumption].
  - rewrite <- (sqrt_square hi) by assumption.
    apply sqrt_lt_1_alt. split; [nra | assumption].
Qed.

Lemma scenario_sum_squares :
  sumR (map (fun d => (symTol d)²) INITIAL_DIMENSIONS) = 0.0925.
Proof. unfold INITIAL_DIMENSIONS, symTol, Rsqr; cbn. lra. Qed.

Lemma scenario_rssTol :
  0.304135 < rssTol INITIAL_DIMENSIONS < 0.304145.
Proof.
  rewrite rssTol_spec. unfold spec_rssTolerance.
  rewrite scenario_sum_squares. apply sqrt_between; lra.
Qed.

(** C1. [computeStackup] returns the reference definition for every list:
    the nominal gap is the sum of the INCREASING nominals minus that of the
    DECREASING ones, the worst-case bounds combine the extended sums, the RSS
    tolerance is the root of the summed squares of the symmetrized
    tolerances of all dimensions, the RSS band is the gap minus and plus it,
    and the count is the length.  On the 4-dimension scenario the gap is
    0.900, the worst case is 0.250 to 1.350 and the RSS tolerance is 0.30414
    up to 0.00001. *)
Theorem computeStackup_reference :
  (forall dims : list Dimension,
     nominalGap (computeStackup dims) = spec_nominalGap dims /\
     worstCaseMax (computeStackup dims) = spec_worstCaseMax dims /\
     worstCaseMin (computeStackup dims) = spec_worstCaseMin dims /\
     rssTol dims = spec_rssTolerance dims /\
     rssMin (computeStackup dims) = spec_nominalGap dims - spec_rssTolerance dims /\
     rssMax (computeStackup dims) = spec_nominalGap dims + spec_rssTolerance dims /\
     contributors (computeStackup dims) = List.length dims) /\
  (nominalGap (computeStackup INITIAL_DIMENSIONS) = 0.900 /\
   worstCaseMax (computeStackup INITIAL_DIMENSIONS) = 1.350 /\
   worstCaseMin (computeStackup INITIAL_DIMENSIONS) = 0.250 /\
   Rabs (rssTol INITIAL_DIMENSIONS - 0.30414) < 0.00001 /\
   Rabs (rssMin (computeStackup INITIAL_DIMENSIONS) - 0.5959) < 0.0001 /\
   Rabs (rssMax (computeStackup INITIAL_DIMENSIONS) - 1.2041) < 0.0001).
Proof.
  unfold computeStackup. split.
  - intros dims.
    pose proof (nominalGap_spec dims) as Hg.
    repeat split;
      try apply nominalGap_spec; try apply worstCaseMax_spec;
      try apply worstCaseMin_spec; try apply rssTol_spec.
    + rewrite <- Hg, <- rssTol_spec. reflexivity.
    + rewrite <- Hg, <- rssTol_spec. reflexivity.
  - pose proof scenario_rssTol as Hr.
    assert (Hg : nominalGap (results INITIAL_DIMENSIONS) = 0.900).
    { rewrite nominalGap_spec. unfold spec_nominalGap; cbn. lra. }
    assert (Hmin : rssMin (results INITIAL_DIMENSIONS)
                   = 0.900 - rssTol INITIAL_DIMENSIONS).
    { rewrite <- Hg. reflexivity. }
    assert (Hmax : rssMax (results INITIAL_DIMENSIONS)
                   = 0.900 + rssTol INITIAL_DIMENSIONS).
    { rewrite <- Hg. reflexivity. }
    repeat split.
    + exact Hg.
    + rewrite worstCaseMax_spec. unfold spec_worstCaseMax, upper, lower; cbn. lra.
    + rewrite worstCaseMin_spec. unfold spec_worstCaseMin, upper, lower; cbn. lra.
    + apply Rabs_def1; lra.
    + rewrite Hmin. apply Rabs_def1; lra.
    + rewrite Hmax. apply Rabs_def1; lra.
Qed.

(** ** The probability branch *)

Lemma poly_bounds (t : number) : 0 <= t <= 1 -> 0 <= poly t <= 2.2.
Proof.
  intros [H0 H1]. unfold poly.
  assert (Hq : 1.15 <= 1.781478 + t * (-1.821256 + t * 1.330274) <= 1.79).
  { pose proof (Rle_0_sqr (t - 0.6845)) as Hs. unfold Rsqr in Hs.
    assert (0 <= t * (1.821256 - t * 1.330274)) by (apply Rmult_le_pos; lra).
    split; lra. }
  set (q := 1.781478 + t * (-1.821256 + t * 1.330274)) in *.
  assert (Hlo : 0 <= t * t * (q - 1.15)) by (apply Rmult_le_pos; nra).
  assert (Hhi : 0 <= t * t * (1.79 - q)) by (apply Rmult_le_pos; nra).
  pose proof (Rle_0_sqr (t - 0.155)) as Hsq. unfold Rsqr in Hsq.
  split; nra.
Qed.

Lemma exp_nonpos_le_1 (u : number) : u <= 0 -> 0 < exp u <= 1.
Proof.
  intros Hu. split; [apply exp_pos|].
  destruct (Rle_lt_or_eq_dec _ _ Hu) as [Hlt | ->].
  - rewrite <- exp_0. left. now apply exp_increasing.
  - rewrite exp_0. lra.
Qed.

Lemma normalTail_range (z : number) : 0 <= normalTail z <= 100.
Proof.
  unfold normalTail.
  set (t := 1 / (1 + 0.2316419 * Rabs z)).
  set (e := exp (- z * z / 2)).
  fold (poly t).
  assert (Ha : 0 <= 0.2316419 * Rabs z) by (pose proof (Rabs_pos z); nra).
  assert (Ht : 0 < t <= 1).
  { assert (Hpos : 0 < t) by (unfold t; apply Rdiv_lt_0_compat; lra).
    assert (Hinv : t * (1 + 0.2316419 * Rabs z) = 1) by (unfold t; field; lra).
    split; [exact Hpos | nra]. }
  assert (He : 0 < e <= 1).
  { apply exp_nonpos_le_1. nra. }
  destruct (poly_bounds t) as [Hp0 Hp1]; [lra|].
  assert (Het : 0 <= e * t <= 1) by nra.
  assert (Hp : 0 <= 0.3989423 * e * t * poly t <= 0.9).
  { replace (0.3989423 * e * t * poly t) with (0.3989423 * ((e * t) * poly t)) by ring.
    assert (0 <= e * t * poly t <= 2.2) by nra. lra. }
  destruct (Rlt_dec 0 z); lra.
Qed.

(** The probability field of [results], by cases on the RSS tolerance. *)
Lemma interferenceProb_cases (dims : list Dimension) :
  (rssTol dims = 0 -> interferenceProb (results dims) = 0) /\
  (rssTol dims <> 0 ->
   interferenceProb (results dims)
   = normalTail ((0 - nominalGap (results dims)) / (rssTol dims / 3))).
Proof.
  pose proof (rssTol_nonneg dims) as Hn.
  unfold results; cbn [interferenceProb nominalGap]. split; intros H.
  - rewrite H. destruct (Rlt_dec 0 (0 / 3)); [lra | reflexivity].
  - destruct (Rlt_dec 0 (rssTol dims / 3)) as [Hs | Hs]; [|lra].
    unfold zScore_of, num_or.
    destruct (Req_dec_T (rssTol dims / 3) 0); [lra | reflexivity].
Qed.

(** C10. For every list of dimensions the returned interference
    probability lies between 0 and 100. *)
Theorem interferenceProb_range (dims : list Dimension) :
  0 <= interferenceProb (computeStackup dims) <= 100.
Proof.
  unfold computeStackup, results; cbn [interferenceProb].
  destruct (Rlt_dec 0 (rssTol dims / 3)).
  - apply normalTail_range.
  - lra.
Qed.

(** ** Ordering of the bands *)

Lemma sumR_app (l1 l2 : list number) : sumR (l1 ++ l2) = sumR l1 + sumR l2.
Proof.
  induction l1 as [|a l1 IH]; cbn [app].
  - cbn; lra.
  - rewrite !sumR_cons, IH. lra.
Qed.

Lemma sumR_map_le (f g : Dimension -> number) (l : list Dimension) :
  Forall (fun d => f d <= g d) l -> sumR (map f l) <= sumR (map g l).
Proof.
  induction 1 as [|d l Hd _ IH]; cbn [map].
  - cbn; lra.
  - rewrite !sumR_cons. lra.
Qed.

Lemma Forall_filter (P : Dimension -> Prop) (f : Dimension -> bool)
    (l : list Dimension) :
  Forall P l -> Forall P (filter f l).
Proof.
  induction 1 as [|d l Hd _ IH]; cbn [filter].
  - constructor.
  - destruct (f d); [constructor|]; assumption.
Qed.

Lemma nonneg_lower_nominal (l : list Dimension) :
  Forall nonnegTol l -> sumR (map lower l) <= sumR (map nominal l).
Proof.
  intros H. apply sumR_map_le.
  eapply Forall_impl; [|exact H]. intros d [_ Hm]. unfold lower. lra.
Qed.

Lemma nonneg_nominal_upper (l : list Dimension) :
  Forall nonnegTol l -> sumR (map nominal l) <= sumR (map upper l).
Proof.
  intros H. apply sumR_map_le.
  eapply Forall_impl; [|exact H]. intros d [Hp _]. unfold upper. lra.
Qed.

Lemma rss_band (dims : list Dimension) :
  rssMin (results dims) <= nominalGap (results dims) <= rssMax (results dims).
Proof.
  pose proof (rssTol_nonneg dims).
  unfold results; cbn [rssMin rssMax nominalGap]. lra.
Qed.

(** C3, as stated, fails for a negative tolerance: a single INCREASING
    dimension 10 with plus tolerance -1 has nominal gap 10 and worst-case
    maximum 9. *)
Lemma gap_decomposition_counterexample :
  ~ (worstCaseMin (computeStackup [negTolDim])
       <= nominalGap (computeStackup [negTolDim])
       <= worstCaseMax (computeStackup [negTolDim]) /\
     rssMin (computeStackup [negTolDim])
       <= nominalGap (computeStackup [negTolDim])
       <= rssMax (computeStackup [negTolDim])).
Proof.
  unfold computeStackup.
  rewrite worstCaseMax_spec, worstCaseMin_spec, nominalGap_spec.
  unfold spec_worstCaseMax, spec_worstCaseMin, spec_nominalGap, upper, lower.
  cbn. lra.
Qed.

(** C3, amended.  For every list the RSS band contains the nominal gap;
    the worst-case band contains it whenever every tolerance in the list
    is a non-negative magnitude. *)
Theorem gap_decomposition (dims : list Dimension) :
  rssMin (computeStackup dims) <= nominalGap (computeStackup dims)
    <= rssMax (computeStackup dims) /\
  (Forall nonnegTol dims ->
   worstCaseMin (computeStackup dims) <= nominalGap (computeStackup dims)
     <= worstCaseMax (computeStackup dims)).
Proof.
  unfold computeStackup. split; [apply rss_band|].
  intros H.
  rewrite worstCaseMax_spec, worstCaseMin_spec, nominalGap_spec.
  unfold spec_worstCaseMax, spec_worstCaseMin, spec_nominalGap.
  pose proof (nonneg_lower_nominal _ (Forall_filter _ _ _ H
    : Forall nonnegTol (increasing dims))).
  pose proof (nonneg_nominal_upper _ (Forall_filter _ _ _ H
    : Forall nonnegTol (increasing dims))).
  pose proof (nonneg_lower_nominal _ (Forall_filter _ _ _ H
    : Forall nonnegTol (decreasing dims))).
  pose proof (nonneg_nominal_upper _ (Forall_filter _ _ _ H
    : Forall nonnegTol (decreasing dims))).
  lra.
Qed.

Lemma INITIAL_DIMENSIONS_nonneg : Forall nonnegTol INITIAL_DIMENSIONS.
Proof. unfold INITIAL_DIMENSIONS, nonnegTol. repeat constructor; cbn; lra. Qed.

Lemma gap_decomposition_witness :
  Forall nonnegTol INITIAL_DIMENSIONS /\
  worstCaseMin (computeStackup INITIAL_DIMENSIONS)
    <= nominalGap (computeStackup INITIAL_DIMENSIONS)
    <= worstCaseMax (computeStackup INITIAL_DIMENSIONS).
Proof.
  split; [exact INITIAL_DIMENSIONS_nonneg|].
  exact (proj2 (gap_decomposition INITIAL_DIMENSIONS) INITIAL_DIMENSIONS_nonneg).
Defined.

(** ** Monotonicity in a single tolerance *)

Lemma wcWidth_sum (dims : list Dimension) :
  wcWidth (results dims)
  = sumR (map (fun d => tolerancePlus d + toleranceMinus d) dims).
Proof.
  unfold wcWidth. rewrite worstCaseMax_spec, worstCaseMin_spec.
  unfold spec_worstCaseMax, spec_worstCaseMin, increasing, decreasing.
  induction dims as [|d dims IH]; cbn [filter map].
  - cbn; lra.
  - rewrite sumR_cons.
    destruct (type d); cbn [DimensionType_eqb map]; rewrite ?sumR_cons.
    all: assert (upper d - lower d = tolerancePlus d + toleranceMinus d)
      by (unfold upper, lower; lra); lra.
Qed.

Lemma rssWidth_rssTol (dims : list Dimension) :
  rssWidth (results dims) = 2 * rssTol dims.
Proof. unfold rssWidth, results; cbn [rssMax rssMin]. lra. Qed.

Lemma sum_squares_split (l1 l2 : list Dimension) (d : Dimension) :
  sumR (map (fun d => (symTol d)²) (l1 ++ d :: l2))
  = sumR (map (fun d => (symTol d)²) l1) + (symTol d)²
    + sumR (map (fun d => (symTol d)²) l2).
Proof. rewrite map_app, sumR_app. cbn [map]. rewrite sumR_cons. lra. Qed.

Lemma tol_sum_split (l1 l2 : list Dimension) (d : Dimension) :
  sumR (map (fun d => tolerancePlus d + toleranceMinus d) (l1 ++ d :: l2))
  = sumR (map (fun d => tolerancePlus d + toleranceMinus d) l1)
    + (tolerancePlus d + toleranceMinus d)
    + sumR (map (fun d => tolerancePlus d + toleranceMinus d) l2).
Proof. rewrite map_app, sumR_app. cbn [map]. rewrite sumR_cons. lra. Qed.

(** Replacing one dimension by one with a larger symmetrized tolerance,
    itself non-negative before the change, does not lower the RSS
    tolerance. *)
Lemma rssTol_replace (l1 l2 : list Dimension) (d d' : Dimension) :
  0 <= symTol d <= symTol d' ->
  rssTol (l1 ++ d :: l2) <= rssTol (l1 ++ d' :: l2).
Proof.
  intros [H0 H1]. rewrite !rssTol_spec. unfold spec_rssTolerance.
  apply sqrt_le_1_alt. rewrite !sum_squares_split.
  assert ((symTol d)² <= (symTol d')²) by (apply Rsqr_incr_1; lra).
  lra.
Qed.

(** C4, as stated, fails when tolerances may be negative: raising the plus
    tolerance of the single dimension 10 +(-1)/-0 from -1 to 0 lowers the
    RSS tolerance from 0.5 to 0. *)
Lemma tolerance_monotonicity_counterexample :
  tolerancePlus negTolDim < 0 /\
  ~ (rssTol [negTolDim] <= rssTol [setTolerancePlus negTolDim 0]).
Proof.
  split; [cbn; lra|].
  rewrite !rssTol_spec. unfold spec_rssTolerance, symTol, Rsqr. cbn.
  replace ((0 + 0) / 2 * ((0 + 0) / 2) + 0) with 0 by lra.
  replace ((-1 + 0) / 2 * ((-1 + 0) / 2) + 0) with (0.5 * 0.5) by lra.
  rewrite sqrt_0, sqrt_square by lra. lra.
Qed.

(** C4, amended.  With all other inputs fixed, replacing one dimension's
    plus (or minus) tolerance by a strictly larger value never decreases
    the worst-case width; it never decreases the RSS tolerance, nor the
    width of the RSS band, provided the sum of that dimension's two
    tolerances was non-negative before the change, as it is for
    non-negative magnitudes. *)
Theorem tolerance_monotonicity (l1 l2 : list Dimension) (d : Dimension)
    (v : number) :
  (tolerancePlus d < v ->
   wcWidth (computeStackup (l1 ++ d :: l2))
     <= wcWidth (computeStackup (l1 ++ setTolerancePlus d v :: l2)) /\
   (0 <= tolerancePlus d + toleranceMinus d ->
    rssTol (l1 ++ d :: l2) <= rssTol (l1 ++ setTolerancePlus d v :: l2) /\
    rssWidth (computeStackup (l1 ++ d :: l2))
      <= rssWidth (computeStackup (l1 ++ setTolerancePlus d v :: l2)))) /\
  (toleranceMinus d < v ->
   wcWidth (computeStackup (l1 ++ d :: l2))
     <= wcWidth (computeStackup (l1 ++ setToleranceMinus d v :: l2)) /\
   (0 <= tolerancePlus d + toleranceMinus d ->
    rssTol (l1 ++ d :: l2) <= rssTol (l1 ++ setToleranceMinus d v :: l2) /\
    rssWidth (computeStackup (l1 ++ d :: l2))
      <= rssWidth (computeStackup (l1 ++ setToleranceMinus d v :: l2)))).
Proof.
  unfold computeStackup. split; intros Hv; split.
  - rewrite !wcWidth_sum, !tol_sum_split. cbn. lra.
  - intros Hs.
    assert (Hr : rssTol (l1 ++ d :: l2)
                 <= rssTol (l1 ++ setTolerancePlus d v :: l2)).
    { apply rssTol_replace. unfold symTol; cbn. lra. }
    split; [exact Hr | rewrite !rssWidth_rssTol; lra].
  - rewrite !wcWidth_sum, !tol_sum_split. cbn. lra.
  - intros Hs.
    assert (Hr : rssTol (l1 ++ d :: l2)
                 <= rssTol (l1 ++ setToleranceMinus d v :: l2)).
    { apply rssTol_replace. unfold symTol; cbn. lra. }
    split; [exact Hr | rewrite !rssWidth_rssTol; lra].
Qed.

Lemma tolerance_monotonicity_witness :
  rssTol INITIAL_DIMENSIONS
  <= rssTol (setTolerancePlus (mkDimension "1" "Housing Cavity Depth" 20.00
               0.2 0.2 INCREASING (Some "Main enclosure depth"%string)) 0.3
             :: tl INITIAL_DIMENSIONS).
Proof.
  refine (proj1 (proj2 (proj1 (tolerance_monotonicity []
            (tl INITIAL_DIMENSIONS)
            (mkDimension "1" "Housing Cavity Depth" 20.00 0.2 0.2 INCREASING
               (Some "Main enclosure depth"%string)) 0.3) _) _)).
  - cbn; lra.
  - cbn; lra.
Defined.

End LinearFacts.

(** * Properties of the hole-fit analysis *)

Module HoleFitFacts.
Import HoleFit.

Lemma gtb_true_iff (a b : number) : gtb a b = true <-> a > b.
Proof. unfold gtb. destruct (Rgt_dec a b); split; intros; auto; discriminate. Qed.

Lemma gtb_false_iff (a b : number) : gtb a b = false <-> a <= b.
Proof.
  unfold gtb. destruct (Rgt_dec a b); split; intros; auto; try discriminate; lra.
Qed.

(** ** Misalignment simulation *)

(** C8. The four simulation outputs depend only on the pin, on hole 1's
    nominal and minus tolerance and on the deviation: two inputs that agree
    on these give the same outputs, whatever the mode, hole 2 and the
    position tolerances are. *)
Theorem simulation_noninterference (mode mode' : AssemblyType)
    (pin hole1 hole1' hole2 hole2' : PartDimension) (deviation : Deviation) :
  nominal hole1 = nominal hole1' ->
  tolMinus hole1 = tolMinus hole1' ->
  simulation (computeFit pin hole1 hole2 mode deviation)
  = simulation (computeFit pin hole1' hole2' mode' deviation).
Proof.
  intros Hn Hm. unfold simulation, computeFit, analysis.
  destruct mode, mode';
    cbn [actualOffset actualTP radialClearance isSimulationInterference];
    rewrite Hn, Hm; reflexivity.
Qed.

Lemma simulation_noninterference_witness :
  simulation (computeFit m6_pin m6_hole m6_hole FLOATING (mkDeviation 0.1 0.1))
  = simulation (computeFit m6_pin (mkPartDimension 6.60 1 0.00 2) m8_hole2
                  FIXED (mkDeviation 0.1 0.1)).
Proof.
  apply (simulation_noninterference FLOATING FIXED m6_pin m6_hole
           (mkPartDimension 6.60 1 0.00 2) m6_hole m8_hole2
           (mkDeviation 0.1 0.1)); reflexivity.
Defined.

(** ** Unit conversion *)

Lemma scale_pos (f : nat) : 0 < 10 ^ f.
Proof. apply pow_lt. lra. Qed.

(** [toFixed] is a rounding to [f] decimals: the result is an integer
    number of units [10^-f] and is within half a unit of the argument. *)
Lemma toFixed_rounds (v : number) (f : nat) :
  exists n : Z,
    toFixed v f = IZR n / 10 ^ f /\ Rabs (toFixed v f - v) <= / 2 / 10 ^ f.
Proof.
  pose proof (scale_pos f) as Hs. unfold toFixed.
  destruct (Rlt_dec v 0) as [Hneg | Hpos].
  - set (k := Zfloor (- v * 10 ^ f + / 2)).
    pose proof (Zfloor_bound (- v * 10 ^ f + / 2)) as Hb. fold k in Hb.
    exists (- k)%Z. split.
    + rewrite opp_IZR. field. lra.
    + replace (- (IZR k / 10 ^ f) - v)
        with ((- v * 10 ^ f - IZR k) / 10 ^ f) by (field; lra).
      unfold Rdiv. rewrite Rabs_mult, (Rabs_pos_eq (/ 10 ^ f)).
      * apply Rmult_le_compat_r.
        -- left. now apply Rinv_0_lt_compat.
        -- apply Rabs_le. lra.
      * left. now apply Rinv_0_lt_compat.
  - set (k := Zfloor (v * 10 ^ f + / 2)).
    pose proof (Zfloor_bound (v * 10 ^ f + / 2)) as Hb. fold k in Hb.
    exists k. split; [reflexivity|].
    replace (IZR k / 10 ^ f - v)
      with ((IZR k - v * 10 ^ f) / 10 ^ f) by (field; lra).
    unfold Rdiv. rewrite Rabs_mult, (Rabs_pos_eq (/ 10 ^ f)).
    + apply Rmult_le_compat_r.
      * left. now apply Rinv_0_lt_compat.
      * apply Rabs_le. lra.
    + left. now apply Rinv_0_lt_compat.
Qed.

End HoleFitFacts.

(** * Further properties of the linear stack-up and of the [App] handlers *)

Module AppFacts.
Import Linear LinearFacts App.

(** [results] written with the reference sums. *)
Lemma results_spec_form (dims : list Dimension) :
  results dims =
  {| nominalGap := spec_nominalGap dims;
     worstCaseMin := spec_worstCaseMin dims;
     worstCaseMax := spec_worstCaseMax dims;
     rssMin := spec_nominalGap dims - spec_rssTolerance dims;
     rssMax := spec_nominalGap dims + spec_rssTolerance dims;
     contributors := List.length dims;
     interferenceProb :=
       if Rlt_dec 0 (spec_rssTolerance dims / 3)
       then normalTail (zScore_of (spec_nominalGap dims)
                          (spec_rssTolerance dims / 3))
       else 0 |}.
Proof.
  pose proof (nominalGap_spec dims) as Hg.
  pose proof (worstCaseMax_spec dims) as Hmax.
  pose proof (worstCaseMin_spec dims) as Hmin.
  pose proof (rssTol_spec dims) as Hr.
  unfold results in *. cbn [nominalGap worstCaseMax worstCaseMin] in *.
  rewrite Hg, Hmax, Hmin, Hr. reflexivity.
Qed.

Lemma gap_as_sum (dims : list Dimension) :
  spec_nominalGap dims = sumR (map gapPart dims).
Proof.
  unfold spec_nominalGap, increasing, decreasing.
  induction dims as [|d dims IH]; cbn [filter map].
  - cbn; lra.
  - rewrite sumR_cons, <- IH. unfold gapPart.
    destruct (type d); cbn [DimensionType_eqb map]; rewrite ?sumR_cons; lra.
Qed.

Lemma wcMax_as_sum (dims : list Dimension) :
  spec_worstCaseMax dims = sumR (map wcMaxPart dims).
Proof.
  unfold spec_worstCaseMax, increasing, decreasing.
  induction dims as [|d dims IH]; cbn [filter map].
  - cbn; lra.
  - rewrite sumR_cons, <- IH. unfold wcMaxPart.
    destruct (type d); cbn [DimensionType_eqb map]; rewrite ?sumR_cons; lra.
Qed.

Lemma wcMin_as_sum (dims : list Dimension) :
  spec_worstCaseMin dims = sumR (map wcMinPart dims).
Proof.
  unfold spec_worstCaseMin, increasing, decreasing.
  induction dims as [|d dims IH]; cbn [filter map].
  - cbn; lra.
  - rewrite sumR_cons, <- IH. unfold wcMinPart.
    destruct (type d); cbn [DimensionType_eqb map]; rewrite ?sumR_cons; lra.
Qed.

(** [results] is determined by four sums over the whole list. *)
Lemma results_from_sums (l l' : list Dimension) :
  sumR (map gapPart l) = sumR (map gapPart l') ->
  sumR (map wcMaxPart l) = sumR (map wcMaxPart l') ->
  sumR (map wcMinPart l) = sumR (map wcMinPart l') ->
  sumR (map (fun d => (symTol d)²) l) = sumR (map (fun d => (symTol d)²) l') ->
  List.length l = List.length l' ->
  results l = results l'.
Proof.
  intros Hg Hmax Hmin Hs Hl.
  rewrite !results_spec_form. unfold spec_rssTolerance.
  rewrite !gap_as_sum, !wcMax_as_sum, !wcMin_as_sum, Hg, Hmax, Hmin, Hs, Hl.
  reflexivity.
Qed.

Lemma sumR_Permutation (l l' : list number) :
  Permutation l l' -> sumR l = sumR l'.
Proof.
  induction 1 as [| a l l' _ IH | a b l | l l' l'' _ IH1 _ IH2].
  - reflexivity.
  - rewrite !sumR_cons, IH. reflexivity.
  - rewrite !sumR_cons. lra.
  - now rewrite IH1.
Qed.

(** X1. Reordering the dimensions of a stack does not change any field of
    the result. *)
Theorem results_permutation (l l' : list Dimension) :
  Permutation l l' -> results l = results l'.
Proof.
  intros H.
  apply results_from_sums;
    try (apply sumR_Permutation, Permutation_map, H).
  apply Permutation_length, H.
Qed.

Lemma results_permutation_witness :
  results (rev INITIAL_DIMENSIONS) = results INITIAL_DIMENSIONS.
Proof.
  apply results_permutation. symmetry. apply Permutation_rev.
Defined.

Lemma sameNumbers_sums (l l' : list Dimension) :
  Forall2 sameNumbers l l' ->
  map gapPart l = map gapPart l' /\ map wcMaxPart l = map wcMaxPart l' /\
  map wcMinPart l = map wcMinPart l' /\
  map (fun d => (symTol d)²) l = map (fun d => (symTol d)²) l'.
Proof.
  induction 1 as [| d d' l l' (Hn & Hp & Hm & Ht) _ (IH1 & IH2 & IH3 & IH4)].
  - repeat split.
  - cbn [map]. rewrite IH1, IH2, IH3, IH4.
    unfold gapPart, wcMaxPart, wcMinPart, symTol, upper, lower.
    rewrite Hn, Hp, Hm, Ht. repeat split.
Qed.

(** X2. The result depends only on the nominal, the two tolerances and the
    direction of each dimension: lists that agree on these position by
    position, whatever their ids, names and descriptions, give the same
    result. *)
Theorem results_numbers_only (l l' : list Dimension) :
  Forall2 sameNumbers l l' -> results l = results l'.
Proof.
  intros H. destruct (sameNumbers_sums l l' H) as (H1 & H2 & H3 & H4).
  apply results_from_sums; try congruence.
  eapply Forall2_length, H.
Qed.

Lemma results_numbers_only_witness :
  results [mkDimension "a" "Case" 20 0.2 0.2 INCREASING None]
  = results [mkDimension "b" "Lid" 20 0.2 0.2 INCREASING
               (Some "renamed"%string)].
Proof.
  apply results_numbers_only. repeat constructor.
Defined.

(** ** RSS band against worst-case band *)

Lemma sum_squares_le_square_sum (l : list Dimension) :
  Forall (fun d => 0 <= symTol d) l ->
  0 <= sumR (map symTol l) /\
  sumR (map (fun d => (symTol d)²) l) <= (sumR (map symTol l))².
Proof.
  induction 1 as [| d l Hd _ [IH0 IH]]; cbn [map].
  - unfold Rsqr; cbn; lra.
  - rewrite !sumR_cons. unfold Rsqr in *. split; [lra | nra].
Qed.

Lemma rssTol_le_sum (l : list Dimension) :
  Forall (fun d => 0 <= symTol d) l -> rssTol l <= sumR (map symTol l).
Proof.
  intros H. destruct (sum_squares_le_square_sum l H) as [H0 Hsq].
  rewrite rssTol_spec. unfold spec_rssTolerance.
  rewrite <- (sqrt_Rsqr (sumR (map symTol l))) by assumption.
  apply sqrt_le_1_alt, Hsq.
Qed.

Lemma nonnegTol_symTol (l : list Dimension) :
  Forall nonnegTol l -> Forall (fun d => 0 <= symTol d) l.
Proof.
  intros H. eapply Forall_impl; [|exact H].
  intros d [Hp Hm]. unfold symTol. lra.
Qed.

Lemma wcWidth_symTol (l : list Dimension) :
  wcWidth (results l) = 2 * sumR (map symTol l).
Proof.
  rewrite wcWidth_sum.
  induction l as [|d l IH]; cbn [map].
  - cbn; lra.
  - rewrite !sumR_cons, IH. unfold symTol. lra.
Qed.

(** X3. When no tolerance is negative, the RSS band is never wider than the
    worst-case band. *)
Theorem rss_band_not_wider (dims : list Dimension) :
  Forall nonnegTol dims ->
  rssWidth (results dims) <= wcWidth (results dims).
Proof.
  intros H. rewrite rssWidth_rssTol, wcWidth_symTol.
  pose proof (rssTol_le_sum dims (nonnegTol_symTol dims H)). lra.
Qed.

Lemma rss_band_not_wider_witness :
  rssWidth (results INITIAL_DIMENSIONS) <= wcWidth (results INITIAL_DIMENSIONS).
Proof.
  apply rss_band_not_wider. exact INITIAL_DIMENSIONS_nonneg.
Defined.

Lemma symmetric_margins (l : list Dimension) :
  Forall symmetricTol l ->
  sumR (map wcMaxPart l) - sumR (map gapPart l) = sumR (map symTol l) /\
  sumR (map gapPart l) - sumR (map wcMinPart l) = sumR (map symTol l) /\
  Forall (fun d => 0 <= symTol d) l.
Proof.
  induction 1 as [| d l [He Hp] _ (IH1 & IH2 & IH3)]; cbn [map].
  - cbn. repeat split; try lra. constructor.
  - rewrite !sumR_cons.
    assert (Hs : symTol d = tolerancePlus d) by (unfold symTol; lra).
    assert (H1 : wcMaxPart d - gapPart d = symTol d).
    { unfold wcMaxPart, gapPart, upper, lower.
      destruct (DimensionType_eqb (type d) INCREASING); lra. }
    assert (H2 : gapPart d - wcMinPart d = symTol d).
    { unfold wcMinPart, gapPart, upper, lower.
      destruct (DimensionType_eqb (type d) INCREASING); lra. }
    repeat split; try lra.
    constructor; [lra | exact IH3].
Qed.

(** The margins of the two bands for symmetric tolerances. *)
Lemma symmetric_bands (dims : list Dimension) :
  Forall symmetricTol dims ->
  worstCaseMin (results dims) <= rssMin (results dims) /\
  rssMax (results dims) <= worstCaseMax (results dims).
Proof.
  intros H. destruct (symmetric_margins dims H) as (H1 & H2 & H3).
  pose proof (rssTol_le_sum dims H3) as Hr. rewrite rssTol_spec in Hr.
  rewrite results_spec_form; cbn [worstCaseMin worstCaseMax rssMin rssMax].
  rewrite gap_as_sum, wcMax_as_sum, wcMin_as_sum. lra.
Qed.

(** X4. For symmetric tolerances (plus and minus equal and non-negative on
    every dimension) the RSS band lies inside the worst-case band. *)
Theorem rss_band_inside_worst_case (dims : list Dimension) :
  Forall symmetricTol dims ->
  worstCaseMin (results dims) <= rssMin (results dims) /\
  rssMin (results dims) <= rssMax (results dims) /\
  rssMax (results dims) <= worstCaseMax (results dims).
Proof.
  intros H. destruct (symmetric_bands dims H) as [H1 H2].
  pose proof (rss_band dims). repeat split; lra.
Qed.

Lemma symmetric_example :
  Forall symmetricTol
    [mkDimension "1" "Housing" 20 0.2 0.2 INCREASING None;
     mkDimension "2" "PCB" 1.6 0.1 0.1 DECREASING None].
Proof. unfold symmetricTol. repeat constructor; cbn; lra. Qed.

Lemma rss_band_inside_worst_case_witness :
  worstCaseMin (results [mkDimension "1" "Housing" 20 0.2 0.2 INCREASING None;
                         mkDimension "2" "PCB" 1.6 0.1 0.1 DECREASING None])
  <= rssMin (results [mkDimension "1" "Housing" 20 0.2 0.2 INCREASING None;
                      mkDimension "2" "PCB" 1.6 0.1 0.1 DECREASING None]).
Proof.
  exact (proj1 (rss_band_inside_worst_case _ symmetric_example)).
Defined.

(** ** The probability against one half *)

Lemma poly_le_at_1 (t : number) : 0 <= t <= 1 -> poly t <= 1.2533137.
Proof.
  intros [H0 H1].
  assert (Hfac : 1.2533137 - poly t
                 = (1 - t) * (0.9339322 + t * (1.290496 - 0.490982 * t)
                              + 1.330274 * (t * t * t))).
  { unfold poly. lra. }
  assert (Hg : 0 <= 0.9339322 + t * (1.290496 - 0.490982 * t)
                    + 1.330274 * (t * t * t)).
  { assert (0 <= t * (1.290496 - 0.490982 * t)) by (apply Rmult_le_pos; lra).
    assert (0 <= t * t * t) by (repeat apply Rmult_le_pos; lra).
    lra. }
  assert (0 <= 1.2533137 - poly t) by (rewrite Hfac; apply Rmult_le_pos; lra).
  lra.
Qed.

(** The tail value before the reflection [1 - p] stays below one half. *)
Lemma normalTail_sides (z : number) :
  (z <= 0 -> 0 <= normalTail z < 50) /\ (0 < z -> 50 < normalTail z <= 100).
Proof.
  unfold normalTail.
  set (t := 1 / (1 + 0.2316419 * Rabs z)).
  set (e := exp (- z * z / 2)).
  fold (poly t).
  assert (Ha : 0 <= 0.2316419 * Rabs z) by (pose proof (Rabs_pos z); nra).
  assert (Ht : 0 < t <= 1).
  { assert (Hpos : 0 < t) by (unfold t; apply Rdiv_lt_0_compat; lra).
    assert (Hinv : t * (1 + 0.2316419 * Rabs z) = 1) by (unfold t; field; lra).
    split; [exact Hpos | nra]. }
  assert (He : 0 < e <= 1) by (apply exp_nonpos_le_1; nra).
  destruct (poly_bounds t) as [Hp0 _]; [lra|].
  pose proof (poly_le_at_1 t ltac:(lra)) as Hp1.
  assert (Het : 0 <= e * t <= 1) by nra.
  assert (Hp : 0 <= 0.3989423 * e * t * poly t <= 0.4999999).
  { replace (0.3989423 * e * t * poly t)
      with (0.3989423 * ((e * t) * poly t)) by ring.
    assert (0 <= e * t * poly t <= 1.2533137) by nra. lra. }
  split; intros Hz; destruct (Rlt_dec 0 z); lra.
Qed.

(** X6. With a positive RSS tolerance the sign of the nominal gap decides
    the side of 50 percent: a non-negative nominal gap gives an
    interference probability below 50, a negative one gives a probability
    above 50. *)
Theorem interferenceProb_half (dims : list Dimension) :
  0 < rssTol dims ->
  (0 <= nominalGap (results dims) -> interferenceProb (results dims) < 50) /\
  (nominalGap (results dims) < 0 -> 50 < interferenceProb (results dims)).
Proof.
  intros Hr.
  destruct (interferenceProb_cases dims) as [_ Hc].
  rewrite Hc by lra.
  set (g := nominalGap (results dims)).
  split; intros Hg.
  - refine (proj2 (proj1 (normalTail_sides _) _)).
    unfold Rdiv. rewrite <- (Rmult_0_l (/ (rssTol dims * / 3))).
    apply Rmult_le_compat_r; [|lra].
    left. apply Rinv_0_lt_compat. lra.
  - refine (proj1 (proj2 (normalTail_sides _) _)).
    apply Rdiv_lt_0_compat; lra.
Qed.

Lemma interferenceProb_half_witness :
  interferenceProb (results INITIAL_DIMENSIONS) < 50.
Proof.
  pose proof scenario_rssTol as Hr.
  refine (proj1 (interferenceProb_half INITIAL_DIMENSIONS _) _).
  - lra.
  - rewrite nominalGap_spec. unfold spec_nominalGap. cbn. lra.
Defined.

Lemma normalTail_far (z : number) : 1000 <= z -> 99 < normalTail z.
Proof.
  intros Hz. unfold normalTail.
  set (t := 1 / (1 + 0.2316419 * Rabs z)).
  set (e := exp (- z * z / 2)).
  fold (poly t).
  assert (Ha : 0 <= 0.2316419 * Rabs z) by (pose proof (Rabs_pos z); nra).
  assert (Ht : 0 < t <= 1).
  { assert (Hpos : 0 < t) by (unfold t; apply Rdiv_lt_0_compat; lra).
    assert (Hinv : t * (1 + 0.2316419 * Rabs z) = 1) by (unfold t; field; lra).
    split; [exact Hpos | nra]. }
  assert (He : 0 < e < 0.01).
  { unfold e. replace (- z * z / 2) with (- (z * z / 2)) by lra.
    rewrite exp_Ropp.
    assert (Hu : 0 < z * z / 2) by nra.
    pose proof (exp_ineq1_le (z * z / 2)) as Hexp.
    split; [apply Rinv_0_lt_compat; lra|].
    rewrite <- (Rinv_inv 0.01).
    apply Rinv_lt_contravar; [|nra].
    apply Rmult_lt_0_compat; [apply Rinv_0_lt_compat; lra | lra]. }
  destruct (poly_bounds t) as [Hp0 _]; [lra|].
  pose proof (poly_le_at_1 t ltac:(lra)) as Hp1.
  assert (Het : 0 <= e * t <= 0.01) by nra.
  assert (Hp : 0 <= 0.3989423 * e * t * poly t < 0.01).
  { replace (0.3989423 * e * t * poly t)
      with (0.3989423 * ((e * t) * poly t)) by lra.
    assert (0 <= e * t * poly t <= 0.01 * 1.2533137) by nra. lra. }
  destruct (Rlt_dec 0 z); lra.
Qed.

(** C2. The code breaks the claim on a stack without tolerance and with a
    negative nominal gap.  For the single DECREASING dimension 5 +0/-0 the
    RSS tolerance is 0 and the nominal gap is -5; the z-score is computed
    with the epsilon, (0 - (-5)) / 0.001 = 5000, and the tail formula at
    that z-score is above 99 percent, but the formula sits behind the test
    [sigma > 0] and the returned probability is 0. *)
Theorem zero_sigma_probability_bug :
  rssTol [mkDimension "1" "Plug" 5 0 0 DECREASING None] = 0 /\
  nominalGap (computeStackup [mkDimension "1" "Plug" 5 0 0 DECREASING None])
    = -5 /\
  zScore_of
    (nominalGap (computeStackup [mkDimension "1" "Plug" 5 0 0 DECREASING None]))
    (rssTol [mkDimension "1" "Plug" 5 0 0 DECREASING None] / 3) = 5000 /\
  99 < normalTail 5000 /\
  interferenceProb
    (computeStackup [mkDimension "1" "Plug" 5 0 0 DECREASING None]) = 0.
Proof.
  set (dims := [mkDimension "1" "Plug" 5 0 0 DECREASING None]).
  assert (Hr : rssTol dims = 0).
  { rewrite rssTol_spec. unfold spec_rssTolerance, symTol, Rsqr. cbn.
    replace ((0 + 0) / 2 * ((0 + 0) / 2) + 0) with 0 by lra. apply sqrt_0. }
  assert (Hg : nominalGap (computeStackup dims) = -5).
  { unfold computeStackup. rewrite nominalGap_spec.
    unfold spec_nominalGap. cbn. lra. }
  split; [exact Hr|]. split; [exact Hg|]. split; [|split].
  - rewrite Hg, Hr. unfold zScore_of, num_or.
    destruct (Req_dec_T (0 / 3) 0); lra.
  - apply normalTail_far. lra.
  - unfold computeStackup.
    exact (proj1 (interferenceProb_cases dims) Hr).
Qed.

(** ** Composition and degenerate stacks *)

Lemma sumR_map_app (f : Dimension -> number) (l1 l2 : list Dimension) :
  sumR (map f (l1 ++ l2)) = sumR (map f l1) + sumR (map f l2).
Proof. now rewrite map_app, sumR_app. Qed.

Lemma rssTol_sqr (l : list Dimension) :
  (rssTol l)² = sumR (map (fun d => (symTol d)²) l).
Proof.
  rewrite rssTol_spec. unfold spec_rssTolerance.
  apply Rsqr_sqrt, sumR_sqr_nonneg.
Qed.

(** X7. Joining two stacks adds their nominal gaps, their worst-case
    bounds and their contributor counts, and combines their RSS tolerances
    in quadrature. *)
Theorem results_app (l1 l2 : list Dimension) :
  nominalGap (results (l1 ++ l2))
    = nominalGap (results l1) + nominalGap (results l2) /\
  worstCaseMax (results (l1 ++ l2))
    = worstCaseMax (results l1) + worstCaseMax (results l2) /\
  worstCaseMin (results (l1 ++ l2))
    = worstCaseMin (results l1) + worstCaseMin (results l2) /\
  rssTol (l1 ++ l2) = sqrt ((rssTol l1)² + (rssTol l2)²) /\
  contributors (results (l1 ++ l2))
    = (contributors (results l1) + contributors (results l2))%nat.
Proof.
  rewrite !nominalGap_spec, !worstCaseMax_spec, !worstCaseMin_spec.
  rewrite !gap_as_sum, !wcMax_as_sum, !wcMin_as_sum, !sumR_map_app.
  repeat split.
  - rewrite !rssTol_sqr, <- sumR_map_app. apply rssTol_spec.
  - unfold results; cbn [contributors]. apply length_app.
Qed.

Lemma zeroTol_sums (l : list Dimension) :
  Forall zeroTol l ->
  sumR (map wcMaxPart l) = sumR (map gapPart l) /\
  sumR (map wcMinPart l) = sumR (map gapPart l) /\
  sumR (map (fun d => (symTol d)²) l) = 0.
Proof.
  induction 1 as [| d l [Hp Hm] _ (IH1 & IH2 & IH3)]; cbn [map].
  - repeat split.
  - rewrite !sumR_cons, IH1, IH2, IH3.
    assert (wcMaxPart d = gapPart d /\ wcMinPart d = gapPart d) as [-> ->].
    { unfold wcMaxPart, wcMinPart, gapPart, upper, lower.
      destruct (DimensionType_eqb (type d) INCREASING); split; lra. }
    unfold symTol, Rsqr. rewrite Hp, Hm. repeat split; lra.
Qed.

(** X8. A stack without any tolerance, the empty stack included, collapses
    both bands onto the nominal gap and reports probability 0, also when
    the nominal gap is negative. *)
Theorem results_zero_tolerance (dims : list Dimension) :
  Forall zeroTol dims ->
  worstCaseMin (results dims) = nominalGap (results dims) /\
  worstCaseMax (results dims) = nominalGap (results dims) /\
  rssMin (results dims) = nominalGap (results dims) /\
  rssMax (results dims) = nominalGap (results dims) /\
  interferenceProb (results dims) = 0.
Proof.
  intros H. destruct (zeroTol_sums dims H) as (H1 & H2 & H3).
  assert (Hr : rssTol dims = 0).
  { rewrite rssTol_spec. unfold spec_rssTolerance. rewrite H3. apply sqrt_0. }
  destruct (interferenceProb_cases dims) as [Hp _].
  rewrite (Hp Hr).
  rewrite worstCaseMin_spec, worstCaseMax_spec, nominalGap_spec.
  rewrite gap_as_sum, wcMax_as_sum, wcMin_as_sum, H1, H2.
  repeat split.
  - rewrite <- gap_as_sum, <- nominalGap_spec.
    unfold results; cbn [rssMin nominalGap]. rewrite Hr. lra.
  - rewrite <- gap_as_sum, <- nominalGap_spec.
    unfold results; cbn [rssMax nominalGap]. rewrite Hr. lra.
Qed.

Lemma results_zero_tolerance_witness :
  nominalGap (results [mkDimension "1" "Plug" 5 0 0 DECREASING None]) = -5 /\
  interferenceProb (results [mkDimension "1" "Plug" 5 0 0 DECREASING None]) = 0.
Proof.
  split.
  - rewrite nominalGap_spec. unfold spec_nominalGap. cbn. lra.
  - refine (proj2 (proj2 (proj2 (proj2 (results_zero_tolerance _ _))))).
    unfold zeroTol. repeat constructor.
Defined.

(** ** The list handlers of [App] *)

(** X9. [addDimension] appends one INCREASING dimension 10 +0.1/-0.1: the
    nominal gap grows by 10, the worst-case maximum by 10.1, the worst-case
    minimum by 9.9, the contributor count by one, and the RSS tolerance
    becomes the root of its square plus 0.01. *)
Theorem addDimension_results (newId : string) (dims : list Dimension) :
  nominalGap (results (addDimension newId dims))
    = nominalGap (results dims) + 10 /\
  worstCaseMax (results (addDimension newId dims))
    = worstCaseMax (results dims) + 10.1 /\
  worstCaseMin (results (addDimension newId dims))
    = worstCaseMin (results dims) + 9.9 /\
  rssTol (addDimension newId dims) = sqrt ((rssTol dims)² + 0.01) /\
  contributors (results (addDimension newId dims))
    = S (contributors (results dims)).
Proof.
  unfold addDimension.
  rewrite !nominalGap_spec, !worstCaseMax_spec, !worstCaseMin_spec.
  rewrite !gap_as_sum, !wcMax_as_sum, !wcMin_as_sum, !sumR_map_app.
  repeat split.
  - cbn. lra.
  - unfold wcMaxPart at 2, upper. cbn. lra.
  - unfold wcMinPart at 2, lower. cbn. lra.
  - rewrite rssTol_spec at 1. unfold spec_rssTolerance.
    rewrite sumR_map_app, rssTol_sqr. f_equal. f_equal.
    unfold symTol, Rsqr. cbn. lra.
  - unfold results; cbn [contributors]. rewrite length_app. cbn. lia.
Qed.

Lemma removeDimension_app (i : string) (l1 l2 : list Dimension) :
  removeDimension i (l1 ++ l2) = removeDimension i l1 ++ removeDimension i l2.
Proof. apply filter_app. Qed.

Lemma removeDimension_absent (i : string) (l : list Dimension) :
  Forall (fun d => Linear.id d <> i) l -> removeDimension i l = l.
Proof.
  induction 1 as [| d l Hd _ IH]; cbn [removeDimension filter].
  - reflexivity.
  - apply String.eqb_neq in Hd. rewrite Hd. cbn [negb].
    unfold removeDimension in IH. now rewrite IH.
Qed.

(** X10. Removing by id right after adding under that id removes the new
    dimension together with every older one that carries the same id; when
    the id is fresh the list is back to what it was. *)
Theorem removeDimension_addDimension (newId : string)
    (dims : list Dimension) :
  removeDimension newId (addDimension newId dims) = removeDimension newId dims /\
  (Forall (fun d => Linear.id d <> newId) dims ->
   removeDimension newId (addDimension newId dims) = dims).
Proof.
  assert (H : removeDimension newId (addDimension newId dims)
              = removeDimension newId dims).
  { unfold addDimension. rewrite removeDimension_app.
    cbn [removeDimension filter Linear.id]. rewrite String.eqb_refl.
    cbn [negb]. apply app_nil_r. }
  split; [exact H|].
  intros Hf. rewrite H. now apply removeDimension_absent.
Qed.

Lemma INITIAL_DIMENSIONS_fresh :
  Forall (fun d => Linear.id d <> "k3x9"%string) INITIAL_DIMENSIONS.
Proof. repeat constructor; cbn; discriminate. Qed.

Lemma removeDimension_addDimension_witness :
  removeDimension "k3x9" (addDimension "k3x9" INITIAL_DIMENSIONS)
  = INITIAL_DIMENSIONS.
Proof.
  exact (proj2 (removeDimension_addDimension "k3x9" INITIAL_DIMENSIONS)
           INITIAL_DIMENSIONS_fresh).
Defined.

Lemma updateDimension_absent (i : string) (fv : FieldValue)
    (dims : list Dimension) :
  Forall (fun d => Linear.id d <> i) dims -> updateDimension i fv dims = dims.
Proof.
  unfold updateDimension.
  induction 1 as [| d l Hd _ IH]; cbn [map]; [reflexivity|].
  apply String.eqb_neq in Hd. rewrite Hd, IH. reflexivity.
Qed.

(** X11. [updateDimension] keeps the number and the order of the
    dimensions, touches only those carrying the id, and leaves the list as
    it is when no dimension carries it. *)
Theorem updateDimension_shape (i : string) (fv : FieldValue)
    (dims : list Dimension) :
  List.length (updateDimension i fv dims) = List.length dims /\
  (forall (n : nat) (d : Dimension),
     nth_error dims n = Some d ->
     nth_error (updateDimension i fv dims) n
     = Some (if String.eqb (Linear.id d) i then setField d fv else d)) /\
  (Forall (fun d => Linear.id d <> i) dims -> updateDimension i fv dims = dims).
Proof.
  repeat split; [| | apply updateDimension_absent]; unfold updateDimension.
  - apply length_map.
  - intros n d Hn. rewrite nth_error_map, Hn. cbn.
    destruct (String.eqb (Linear.id d) i); reflexivity.
Qed.

Lemma updateDimension_shape_witness :
  updateDimension "k3x9" (F_nominal 1) INITIAL_DIMENSIONS = INITIAL_DIMENSIONS.
Proof.
  exact (proj2 (proj2 (updateDimension_shape "k3x9" (F_nominal 1)
                         INITIAL_DIMENSIONS)) INITIAL_DIMENSIONS_fresh).
Defined.

Lemma updateDimension_sameNumbers (i : string) (fv : FieldValue)
    (dims : list Dimension) :
  labelEdit fv = true ->
  Forall2 sameNumbers (updateDimension i fv dims) dims.
Proof.
  intros Hl. unfold updateDimension.
  induction dims as [|d dims IH]; cbn [map]; constructor; [|exact IH].
  destruct (negb (String.eqb (Linear.id d) i)).
  - repeat split.
  - destruct fv; try discriminate; repeat split.
Qed.

(** X12. Editing an id, a name or a description through [updateDimension]
    never changes the computed result. *)
Theorem updateDimension_label_results (i : string) (fv : FieldValue)
    (dims : list Dimension) :
  labelEdit fv = true ->
  results (updateDimension i fv dims) = results dims.
Proof.
  intros Hl. apply results_from_sums.
  all: try (destruct (sameNumbers_sums _ _
              (updateDimension_sameNumbers i fv dims Hl))
              as (H1 & H2 & H3 & H4); congruence).
  unfold updateDimension. apply length_map.
Qed.

Lemma updateDimension_label_results_witness :
  results (updateDimension "1" (F_name "Case") INITIAL_DIMENSIONS)
  = results INITIAL_DIMENSIONS.
Proof.
  apply updateDimension_label_results. reflexivity.
Defined.

Lemma updateDimension_app (i : string) (fv : FieldValue)
    (l1 l2 : list Dimension) :
  updateDimension i fv (l1 ++ l2)
  = updateDimension i fv l1 ++ updateDimension i fv l2.
Proof. apply map_app. Qed.

(** X13. When the edited dimension is the only one with its id,
    [updateDimension] on a tolerance replaces exactly that dimension, in
    place. *)
Theorem updateDimension_unique (l1 l2 : list Dimension) (d : Dimension)
    (v : number) :
  Forall (fun d' => Linear.id d' <> Linear.id d) l1 ->
  Forall (fun d' => Linear.id d' <> Linear.id d) l2 ->
  updateDimension (Linear.id d) (F_tolerancePlus v) (l1 ++ d :: l2)
    = l1 ++ setTolerancePlus d v :: l2 /\
  updateDimension (Linear.id d) (F_toleranceMinus v) (l1 ++ d :: l2)
    = l1 ++ setToleranceMinus d v :: l2.
Proof.
  intros H1 H2.
  split; rewrite updateDimension_app, (updateDimension_absent _ _ l1 H1);
    change (d :: l2) with ([d] ++ l2);
    rewrite updateDimension_app, (updateDimension_absent _ _ l2 H2);
    cbn [updateDimension map app]; rewrite String.eqb_refl; reflexivity.
Qed.

Lemma updateDimension_unique_witness :
  updateDimension "1" (F_tolerancePlus 0.3) INITIAL_DIMENSIONS
  = setTolerancePlus (mkDimension "1" "Housing Cavity Depth" 20.00 0.2 0.2
                        INCREASING (Some "Main enclosure depth"%string)) 0.3
    :: tl INITIAL_DIMENSIONS.
Proof.
  refine (proj1 (updateDimension_unique [] (tl INITIAL_DIMENSIONS)
            (mkDimension "1" "Housing Cavity Depth" 20.00 0.2 0.2 INCREASING
               (Some "Main enclosure depth"%string)) 0.3 _ _)).
  - constructor.
  - repeat constructor; cbn; discriminate.
Defined.

End AppFacts.

(** * Properties of the loop diagram *)

Module StackVisualizerFacts.
Import Linear LinearFacts StackVisualizer.

Lemma fold_width (l : list Item) : forall a : number,
  fold_left (fun acc cur => acc + width cur) l a = a + sumR (map width l).
Proof.
  induction l as [|d l IH]; intros a; cbn [fold_left map].
  - cbn; lra.
  - rewrite IH, sumR_cons. lra.
Qed.

Lemma items_widths (t : DimensionType) (dims : list Dimension) :
  map width
    (filter (fun d => DimensionType_eqb (type (dim d)) t)
       (map (fun d => mkItem d (nominal d)) dims))
  = map nominal (filter (fun d => DimensionType_eqb (type d) t) dims).
Proof.
  induction dims as [|d dims IH]; cbn [map filter dim]; [reflexivity|].
  destruct (DimensionType_eqb (type d) t); cbn [map width]; now rewrite IH.
Qed.

Lemma scale_eq (dims : list Dimension) :
  scale (scaling dims)
  = 800 / (if Req_dec_T (longestRow dims * 1.2) 0 then 100
           else longestRow dims * 1.2).
Proof.
  unfold scaling, longestRow, Linear.increasing, Linear.decreasing.
  cbn [scale]. rewrite !fold_width, !items_widths, !Rplus_0_l. reflexivity.
Qed.

Lemma scale_sign (dims : list Dimension) :
  (0 <= longestRow dims -> 0 < scale (scaling dims)) /\
  (longestRow dims < 0 -> scale (scaling dims) < 0).
Proof.
  rewrite scale_eq.
  destruct (Req_dec_T (longestRow dims * 1.2) 0) as [E | E]; split; intros H.
  - lra.
  - lra.
  - apply Rdiv_lt_0_compat; lra.
  - assert (Hm : 800 / (longestRow dims * 1.2) * (longestRow dims * 1.2) = 800)
      by (field; lra).
    destruct (Rlt_le_dec (800 / (longestRow dims * 1.2)) 0); [assumption | nra].
Qed.

(** The top row: where the cursor ends and where the new bars lie. *)
Lemma increasing_row (s : number) (l : list Item) :
  forall (c : number) (els : list Bar),
  exists new : list Bar,
    fold_left (increasingStep s) l (c, els)
    = (c + s * sumR (map width l), els ++ new) /\
    List.length new = List.length l /\
    (Forall (fun d => 0 <= width d * s) l ->
     c <= c + s * sumR (map width l) /\
     Forall (fun b => c <= bar_x b /\
                      bar_x b + bar_w b <= c + s * sumR (map width l)) new).
Proof.
  induction l as [|d l IH]; intros c els; cbn [fold_left map].
  - exists []. rewrite app_nil_r. cbn. repeat split; try lra.
    + f_equal; lra.
    + constructor.
  - cbn [increasingStep].
    destruct (IH (c + width d * s) (els ++ [mkBar c 50 (width d * s)]))
      as (new & Hf & Hl & Hb).
    exists (mkBar c 50 (width d * s) :: new).
    rewrite Hf, sumR_cons, <- app_assoc. cbn [app].
    repeat split.
    + f_equal. lra.
    + cbn. now rewrite Hl.
    + inversion H as [| ? ? Hd Hrest]; subst.
      destruct (Hb Hrest) as [Hle _]. lra.
    + inversion H as [| ? ? Hd Hrest]; subst.
      destruct (Hb Hrest) as [Hle Hall].
      constructor.
      * cbn. lra.
      * eapply Forall_impl; [|exact Hall]. cbn. intros b [Hb1 Hb2]. lra.
Qed.

(** The bottom row, drawn leftwards from the end of the top row. *)
Lemma decreasing_row (s : number) (l : list Item) :
  forall (c : number) (els : list Bar),
  exists new : list Bar,
    fold_left (decreasingStep s) l (c, els)
    = (c - s * sumR (map width l), els ++ new) /\
    List.length new = List.length l /\
    (Forall (fun d => 0 <= width d * s) l ->
     c - s * sumR (map width l) <= c /\
     Forall (fun b => c - s * sumR (map width l) <= bar_x b /\
                      bar_x b + bar_w b <= c) new).
Proof.
  induction l as [|d l IH]; intros c els; cbn [fold_left map].
  - exists []. rewrite app_nil_r. cbn. repeat split; try lra.
    + f_equal; lra.
    + constructor.
  - cbn [decreasingStep].
    destruct (IH (c - width d * s)
                (els ++ [mkBar (c - width d * s) 120 (width d * s)]))
      as (new & Hf & Hl & Hb).
    exists (mkBar (c - width d * s) 120 (width d * s) :: new).
    rewrite Hf, sumR_cons, <- app_assoc. cbn [app].
    repeat split.
    + f_equal. lra.
    + cbn. now rewrite Hl.
    + inversion H as [| ? ? Hd Hrest]; subst.
      destruct (Hb Hrest) as [Hle _]. lra.
    + inversion H as [| ? ? Hd Hrest]; subst.
      destruct (Hb Hrest) as [Hle Hall].
      constructor.
      * cbn. lra.
      * eapply Forall_impl; [|exact Hall]. cbn. intros b [Hb1 Hb2]. lra.
Qed.

Lemma nonneg_widths (s : number) (dims : list Dimension)
    (t : DimensionType) :
  0 <= s -> Forall (fun d => 0 <= nominal d) dims ->
  Forall (fun d => 0 <= width d * s)
    (filter (fun d => DimensionType_eqb (type (dim d)) t)
       (map (fun d => mkItem d (nominal d)) dims)).
Proof.
  intros Hs. induction 1 as [| d l Hd _ IH]; cbn [map filter dim].
  - constructor.
  - destruct (DimensionType_eqb (type d) t); [constructor|]; try exact IH.
    cbn. now apply Rmult_le_pos.
Qed.

Lemma sumR_nonneg (f : Dimension -> number) (l : list Dimension) :
  Forall (fun d => 0 <= f d) l -> 0 <= sumR (map f l).
Proof.
  induction 1 as [| d l Hd _ IH]; cbn [map].
  - cbn; lra.
  - rewrite sumR_cons. lra.
Qed.

Lemma filter_length_split (dims : list Dimension) :
  (List.length (Linear.increasing dims) + List.length (Linear.decreasing dims)
   = List.length dims)%nat.
Proof.
  unfold Linear.increasing, Linear.decreasing.
  induction dims as [|d dims IH]; cbn [filter]; [reflexivity|].
  destruct (type d); cbn [DimensionType_eqb List.length]; lia.
Qed.

(** X15. For non-negative nominals the diagram has one bar per dimension,
    the bars of the top row lie between the left padding and the end of the
    row, the bars of the bottom row between the gap mark and that end, and
    the end of the top row stays within 2000/3 of the padding, inside the
    800 wide view box. *)
Theorem diagram_layout (dims : list Dimension) :
  Forall (fun d => 0 <= nominal d) dims ->
  (List.length (increasingEls (render dims))
   + List.length (decreasingEls (render dims)) = List.length dims)%nat /\
  Forall (fun b => padding <= bar_x b /\
                   bar_x b + bar_w b <= endOfIncreasingX (render dims))
    (increasingEls (render dims)) /\
  Forall (fun b => pointC (render dims) <= bar_x b /\
                   bar_x b + bar_w b <= endOfIncreasingX (render dims))
    (decreasingEls (render dims)) /\
  padding <= endOfIncreasingX (render dims) <= padding + 2000 / 3 /\
  endOfIncreasingX (render dims) < width_px.
Proof.
  intros Hn.
  assert (HI : 0 <= sumR (map nominal (Linear.increasing dims))).
  { apply sumR_nonneg. apply Forall_filter, Hn. }
  assert (HD : 0 <= sumR (map nominal (Linear.decreasing dims))).
  { apply sumR_nonneg. apply Forall_filter, Hn. }
  assert (HL : 0 <= longestRow dims).
  { unfold longestRow. pose proof (Rmax_l
      (sumR (map nominal (Linear.increasing dims)))
      (sumR (map nominal (Linear.decreasing dims)))). lra. }
  pose proof (proj1 (scale_sign dims) HL) as Hs.
  assert (Hend : scale (scaling dims)
                 * sumR (map nominal (Linear.increasing dims)) <= 2000 / 3).
  { pose proof (Rmax_l (sumR (map nominal (Linear.increasing dims)))
                  (sumR (map nominal (Linear.decreasing dims)))) as Hm.
    fold (longestRow dims) in Hm. rewrite scale_eq.
    destruct (Req_dec_T (longestRow dims * 1.2) 0) as [E | E].
    - replace (sumR (map nominal (Linear.increasing dims))) with 0 by lra. lra.
    - assert (Hq : 800 / (longestRow dims * 1.2) * (longestRow dims * 1.2)
                   = 800) by (field; lra).
      assert (0 < 800 / (longestRow dims * 1.2))
        by (apply Rdiv_lt_0_compat; lra).
      nra. }
  pose proof (filter_length_split dims) as Hlen.
  unfold render.
  destruct (increasing_row (scale (scaling dims)) (increasing (scaling dims))
              padding []) as (inc & Hi & Hli & Hbi).
  rewrite Hi.
  destruct (decreasing_row (scale (scaling dims)) (decreasing (scaling dims))
              (padding + scale (scaling dims)
                 * sumR (map width (increasing (scaling dims)))) [])
    as (dec & Hd & Hld & Hbd).
  rewrite Hd.
  cbn [increasingEls decreasingEls endOfIncreasingX pointC app].
  assert (Ewi : map width (increasing (scaling dims))
                = map nominal (Linear.increasing dims)) by apply items_widths.
  assert (Ewd : map width (decreasing (scaling dims))
                = map nominal (Linear.decreasing dims)) by apply items_widths.
  destruct Hbi as [_ Hbi].
  { apply nonneg_widths; [lra | exact Hn]. }
  destruct Hbd as [_ Hbd].
  { apply nonneg_widths; [lra | exact Hn]. }
  rewrite Ewi in *. rewrite Ewd in *.
  repeat split.
  - rewrite Hli, Hld.
    rewrite <- (length_map width (increasing (scaling dims))), Ewi.
    rewrite <- (length_map width (decreasing (scaling dims))), Ewd.
    rewrite !length_map. exact Hlen.
  - exact Hbi.
  - exact Hbd.
  - unfold padding. nra.
  - unfold padding in *. lra.
  - unfold padding, width_px in *. lra.
Qed.

Lemma diagram_layout_witness :
  endOfIncreasingX (render INITIAL_DIMENSIONS) < width_px.
Proof.
  refine (proj2 (proj2 (proj2 (proj2 (diagram_layout INITIAL_DIMENSIONS _))))).
  repeat constructor; cbn; lra.
Defined.

End StackVisualizerFacts.

(** * Properties of the bell curve *)

Module StatisticalChartFacts.
Import Linear LinearFacts StatisticalChart.

Lemma Zfloor_le_of_lt (v : number) (z : Z) : v < IZR z + 1 -> (Zfloor v <= z)%Z.
Proof.
  intros H. pose proof (Zfloor_bound v) as [Hb _].
  assert (Hlt : IZR (Zfloor v) < IZR (z + 1)) by (rewrite plus_IZR; lra).
  apply lt_IZR in Hlt. lia.
Qed.

(** Rounding keeps a value of the unit interval inside it. *)
Lemma toFixed_unit_interval (v : number) (f : nat) :
  0 <= v <= 1 -> 0 <= HoleFit.toFixed v f <= 1.
Proof.
  intros [H0 H1]. unfold HoleFit.toFixed.
  destruct (Rlt_dec v 0); [lra|].
  assert (Hs : 0 < 10 ^ f) by (apply pow_lt; lra).
  assert (Hz : 10 ^ f = IZR (10 ^ Z.of_nat f)).
  { rewrite <- pow_IZR. reflexivity. }
  assert (Hlo : (0 <= Zfloor (v * 10 ^ f + / 2))%Z).
  { apply Zfloor_lub. nra. }
  assert (Hhi : (Zfloor (v * 10 ^ f + / 2) <= 10 ^ Z.of_nat f)%Z).
  { apply Zfloor_le_of_lt. rewrite <- Hz. nra. }
  apply IZR_le in Hlo, Hhi. rewrite <- Hz in Hhi.
  split.
  - apply Rmult_le_pos; [exact Hlo | left; now apply Rinv_0_lt_compat].
  - apply Rmult_le_reg_r with (10 ^ f); [exact Hs|].
    unfold Rdiv. rewrite Rmult_assoc, Rinv_l by lra. lra.
Qed.

Lemma toFixed_1_4 : HoleFit.toFixed 1 4 = 1.
Proof.
  unfold HoleFit.toFixed. destruct (Rlt_dec 1 0); [lra|].
  rewrite (Zfloor_eq 10000); cbn [pow]; lra.
Qed.

(** The abscissa of point [i] in units of [sigma] from the mean. *)
Lemma bellPoint_offset (result : StackupResult) (i : nat) :
  sigma result <> 0 ->
  ((mean result - 4 * sigma result
    + INR i * ((mean result + 4 * sigma result
                - (mean result - 4 * sigma result)) / INR steps)
    - mean result) / sigma result)
  = 0.16 * INR i - 4.
Proof.
  intros Hs. unfold steps. replace (INR 50) with 50 by (cbn; lra).
  replace (mean result - 4 * sigma result
           + INR i * ((mean result + 4 * sigma result
                       - (mean result - 4 * sigma result)) / 50)
           - mean result)
    with ((0.16 * INR i - 4) * sigma result) by lra.
  unfold Rdiv. rewrite Rmult_assoc, Rinv_r by exact Hs. lra.
Qed.

Lemma bellPoint_density (result : StackupResult) (i : nat) :
  sigma result <> 0 -> density (bellPoint result i) = shape i.
Proof.
  intros Hs. unfold bellPoint, shape. cbn [density].
  rewrite (bellPoint_offset result i Hs). reflexivity.
Qed.

Lemma shape_range (i : nat) : 0 <= shape i <= 1.
Proof.
  unfold shape. apply toFixed_unit_interval.
  pose proof (exp_nonpos_le_1 (-0.5 * (0.16 * INR i - 4) ^ 2)) as H.
  pose proof (pow2_ge_0 (0.16 * INR i - 4)).
  specialize (H ltac:(lra)). lra.
Qed.

Lemma shape_symmetric (i : nat) : (i <= 50)%nat -> shape (50 - i) = shape i.
Proof.
  intros Hi. unfold shape. rewrite minus_INR by exact Hi.
  replace (INR 50) with 50 by (cbn; lra).
  f_equal. f_equal. cbn [pow]. lra.
Qed.

Lemma shape_peak : shape 25 = 1.
Proof.
  unfold shape. replace (INR 25) with 25 by (cbn; lra).
  replace (-0.5 * (0.16 * 25 - 4) ^ 2) with 0 by (cbn [pow]; lra).
  rewrite exp_0. apply toFixed_1_4.
Qed.

Lemma chart_sigma (dims : list Dimension) :
  sigma (results dims) = rssTol dims / 3.
Proof. unfold sigma, mean, results; cbn [nominalGap rssMin]. lra. Qed.

Lemma bellPoint_25 (result : StackupResult) :
  sigma result <> 0 ->
  bellPoint result 25 = mkPoint (HoleFit.toFixed (mean result) 4) 1.
Proof.
  intros Hs.
  pose proof (bellPoint_density result 25 Hs) as Hd. rewrite shape_peak in Hd.
  unfold bellPoint in *. cbn [density] in Hd. rewrite Hd. f_equal. f_equal.
  unfold steps. replace (INR 50) with 50 by (cbn; lra).
  replace (INR 25) with 25 by (cbn; lra). lra.
Qed.

(** X16. For a stack with a positive RSS tolerance the chart uses the
    engine's sigma (a third of the RSS tolerance) and plots 51 points; their
    density column is the same for every such stack, namely the rounded
    value of exp(-(0.16 i - 4)^2 / 2) at index i.  It lies between 0 and 1,
    is symmetric about index 25, and the middle point sits at the rounded
    nominal gap with density 1. *)
Theorem bell_curve_shape (dims : list Dimension) :
  0 < rssTol dims ->
  sigma (results dims) = rssTol dims / 3 /\
  List.length (generateBellCurveData (results dims)) = 51%nat /\
  map density (generateBellCurveData (results dims)) = map shape (seq 0 51) /\
  (forall i : nat, (i <= 50)%nat ->
     0 <= shape i <= 1 /\ shape (50 - i) = shape i) /\
  nth_error (generateBellCurveData (results dims)) 25
  = Some (mkPoint (HoleFit.toFixed (nominalGap (results dims)) 4) 1).
Proof.
  intros Hr.
  assert (Hs : sigma (results dims) <> 0) by (rewrite chart_sigma; lra).
  unfold generateBellCurveData, steps.
  split; [|split; [|split; [|split]]].
  - apply chart_sigma.
  - rewrite length_map, length_seq. reflexivity.
  - rewrite map_map. apply map_ext. intros i. now apply bellPoint_density.
  - intros i Hi. split; [apply shape_range | now apply shape_symmetric].
  - rewrite nth_error_map.
    replace (nth_error (seq 0 (50 + 1)) 25) with (Some 25%nat) by reflexivity.
    cbn [option_map]. f_equal. now apply bellPoint_25.
Qed.

Lemma bell_curve_shape_witness :
  List.length (generateBellCurveData (results INITIAL_DIMENSIONS)) = 51%nat.
Proof.
  refine (proj1 (proj2 (bell_curve_shape INITIAL_DIMENSIONS _))).
  pose proof scenario_rssTol. lra.
Defined.

(** X17. [gradientOffset] always returns a value between 0 and 1.  It is 0
    for empty data and when the last value is not positive, 1 when the
    last value is positive and the first is not negative, and strictly
    between the two when zero lies strictly between the first and the last
    value. *)
Theorem gradientOffset_range (data : list Point) :
  0 <= gradientOffset data <= 1 /\
  (data = [] -> gradientOffset data = 0) /\
  (forall (p0 : Point) (rest : list Point),
     data = p0 :: rest ->
     (val (last data p0) <= 0 -> gradientOffset data = 0) /\
     (0 < val (last data p0) -> 0 <= val p0 -> gradientOffset data = 1) /\
     (val p0 < 0 < val (last data p0) ->
      gradientOffset data = (0 - val p0) / (val (last data p0) - val p0) /\
      0 < gradientOffset data < 1)).
Proof.
  destruct data as [|p0 rest].
  - cbn. repeat split; try lra. discriminate.
  - set (data := p0 :: rest).
    assert (Hcases :
      (val (last data p0) <= 0 -> gradientOffset data = 0) /\
      (0 < val (last data p0) -> 0 <= val p0 -> gradientOffset data = 1) /\
      (val p0 < 0 < val (last data p0) ->
       gradientOffset data = (0 - val p0) / (val (last data p0) - val p0) /\
       0 < gradientOffset data < 1)).
    { unfold gradientOffset, data. fold data.
      destruct (Rle_dec (val (last data p0)) 0) as [Hmax | Hmax];
        [repeat split; intros; lra|].
      destruct (Rge_dec (val p0) 0) as [Hmin | Hmin];
        [repeat split; intros; lra|].
      repeat split; intros; try lra.
      - apply Rdiv_lt_0_compat; lra.
      - apply Rmult_lt_reg_r with (val (last data p0) - val p0); [lra|].
        unfold Rdiv. rewrite Rmult_assoc, Rinv_l by lra. lra. }
    destruct Hcases as (H0 & H1 & H2).
    split; [|split].
    + destruct (Rle_dec (val (last data p0)) 0) as [Hmax | Hmax].
      * rewrite (H0 Hmax). lra.
      * destruct (Rle_dec 0 (val p0)) as [Hmin | Hmin].
        -- rewrite H1; lra.
        -- destruct H2 as [_ ?]; lra.
    + discriminate.
    + intros q0 rest' E. injection E as <- <-.
      exact (conj H0 (conj H1 H2)).
Qed.

Lemma gradientOffset_range_witness :
  gradientOffset [mkPoint (-1) 0; mkPoint 3 0]
  = (0 - -1) / (3 - -1).
Proof.
  refine (proj1 (proj2 (proj2 (proj2 (proj2
            (gradientOffset_range [mkPoint (-1) 0; mkPoint 3 0]))
            (mkPoint (-1) 0) [mkPoint 3 0] eq_refl)) _)).
  cbn. lra.
Defined.

End StatisticalChartFacts.

(** * Properties of the spreadsheet export *)

Module ExcelGeneratorFacts.
Import ExcelGenerator.

Lemma string_app_assoc (a b c : string) :
  ((a ++ b) ++ c = a ++ (b ++ c))%string.
Proof. induction a as [|x a IH]; cbn; [reflexivity | now rewrite IH]. Qed.

Lemma replaceAll_app (c : ascii) (r s1 s2 : string) :
  (replaceAll c r (s1 ++ s2) = replaceAll c r s1 ++ replaceAll c r s2)%string.
Proof.
  induction s1 as [|a s1 IH]; cbn [replaceAll String.append]; [reflexivity|].
  destruct (Ascii.eqb a c); rewrite IH.
  - now rewrite string_app_assoc.
  - reflexivity.
Qed.

Lemma passes_app (s1 s2 : string) :
  (passes (s1 ++ s2) = passes s1 ++ passes s2)%string.
Proof. unfold passes. now rewrite !replaceAll_app. Qed.

Lemma passes_char (a : ascii) : passes (String a EmptyString) = escapeChar a.
Proof.
  unfold passes, escapeChar.
  destruct (Ascii.eqb a "&") eqn:E1.
  { apply Ascii.eqb_eq in E1; subst. reflexivity. }
  destruct (Ascii.eqb a "<") eqn:E2.
  { apply Ascii.eqb_eq in E2; subst. reflexivity. }
  destruct (Ascii.eqb a ">") eqn:E3.
  { apply Ascii.eqb_eq in E3; subst. reflexivity. }
  destruct (Ascii.eqb a dquote) eqn:E4.
  { apply Ascii.eqb_eq in E4; subst. reflexivity. }
  destruct (Ascii.eqb a "'") eqn:E5.
  { apply Ascii.eqb_eq in E5; subst. reflexivity. }
  cbn [replaceAll]. rewrite E1. cbn [replaceAll]. rewrite E2.
  cbn [replaceAll]. rewrite E3. cbn [replaceAll]. rewrite E4.
  cbn [replaceAll]. rewrite E5. reflexivity.
Qed.

Lemma passes_escapeString (s : string) : passes s = escapeString s.
Proof.
  induction s as [|a s IH]; [reflexivity|].
  change (String a s) with (String a EmptyString ++ s)%string.
  rewrite passes_app, passes_char, IH. reflexivity.
Qed.

Lemma escapeXML_escapeString (s : string) :
  escapeXML (Some s) = escapeString s.
Proof.
  destruct s as [|a s]; [reflexivity|].
  exact (passes_escapeString (String a s)).
Qed.

Lemma list_ascii_app (s1 s2 : string) :
  list_ascii_of_string (s1 ++ s2)
  = list_ascii_of_string s1 ++ list_ascii_of_string s2.
Proof. induction s1 as [|a s1 IH]; cbn; [reflexivity | now rewrite IH]. Qed.

Lemma escapeChar_markup (a : ascii) :
  Forall (fun c => markup c = false) (list_ascii_of_string (escapeChar a)).
Proof.
  unfold escapeChar.
  destruct (Ascii.eqb a "&") eqn:E1; [repeat constructor|].
  destruct (Ascii.eqb a "<") eqn:E2; [repeat constructor|].
  destruct (Ascii.eqb a ">") eqn:E3; [repeat constructor|].
  destruct (Ascii.eqb a dquote) eqn:E4; [repeat constructor|].
  destruct (Ascii.eqb a "'") eqn:E5; [repeat constructor|].
  cbn. constructor; [|constructor].
  unfold markup. now rewrite E2, E3, E4, E5.
Qed.

Lemma escapeChar_plain (a : ascii) :
  markup a = false -> a <> "&"%char -> escapeChar a = String a EmptyString.
Proof.
  unfold markup, escapeChar. intros Hm Ha.
  apply Ascii.eqb_neq in Ha. rewrite Ha.
  destruct (Ascii.eqb a "<"); [discriminate|].
  destruct (Ascii.eqb a ">"); [discriminate|].
  destruct (Ascii.eqb a dquote); [discriminate|].
  destruct (Ascii.eqb a "'"); [discriminate | reflexivity].
Qed.

(** X18. The text that [escapeXML] returns contains none of the characters
    less-than, greater-than, double quote and apostrophe; a text without
    these characters and without an ampersand is returned unchanged, and a
    missing or empty text gives the empty text. *)
Theorem escapeXML_no_markup (s : string) :
  Forall (fun c => markup c = false)
    (list_ascii_of_string (escapeXML (Some s))) /\
  (Forall (fun c => markup c = false /\ c <> "&"%char)
     (list_ascii_of_string s) ->
   escapeXML (Some s) = s) /\
  escapeXML None = EmptyString /\
  escapeXML (Some EmptyString) = EmptyString.
Proof.
  rewrite escapeXML_escapeString. repeat split.
  - induction s as [|a s IH]; cbn [escapeString]; [constructor|].
    rewrite list_ascii_app. apply Forall_app. split; [|exact IH].
    apply escapeChar_markup.
  - induction s as [|a s IH]; cbn [escapeString list_ascii_of_string];
      [reflexivity|].
    intros H. inversion H as [| ? ? [Hm Ha] Hrest]; subst.
    rewrite (escapeChar_plain a Hm Ha), (IH Hrest). reflexivity.
Qed.

Lemma escapeXML_no_markup_witness :
  escapeXML (Some "PCB Thickness"%string) = "PCB Thickness"%string.
Proof.
  refine (proj1 (proj2 (escapeXML_no_markup "PCB Thickness")) _).
  repeat constructor; discriminate.
Defined.

(** Case analysis on the class of a character. *)
Ltac char_class a :=
  unfold escapeChar;
  let E1 := fresh "E" in let E2 := fresh "E" in let E3 := fresh "E" in
  let E4 := fresh "E" in let E5 := fresh "E" in
  destruct (Ascii.eqb a "&") eqn:E1;
  [ apply Ascii.eqb_eq in E1
  | destruct (Ascii.eqb a "<") eqn:E2;
    [ apply Ascii.eqb_eq in E2
    | destruct (Ascii.eqb a ">") eqn:E3;
      [ apply Ascii.eqb_eq in E3
      | destruct (Ascii.eqb a dquote) eqn:E4;
        [ apply Ascii.eqb_eq in E4
        | destruct (Ascii.eqb a "'") eqn:E5;
          [ apply Ascii.eqb_eq in E5 | ] ] ] ] ].

Lemma escapeChar_head (a b : ascii) (t1 t2 : string) :
  (escapeChar a ++ t1 = escapeChar b ++ t2)%string -> a = b /\ t1 = t2.
Proof.
  char_class a; char_class b; intros H; subst; cbn in H;
    try (injection H; intros; subst; split; congruence);
    try discriminate H;
    try (injection H; intros; subst;
         match goal with
         | E : Ascii.eqb ?c ?c = false |- _ =>
             rewrite Ascii.eqb_refl in E; discriminate E
         end).
Qed.

Lemma escapeChar_nonempty (a : ascii) (t : string) :
  (escapeChar a ++ t)%string <> EmptyString.
Proof. char_class a; discriminate. Qed.

(** X19. [escapeXML] loses nothing: two texts with the same escaped form
    are equal. *)
Theorem escapeXML_injective (s1 s2 : string) :
  escapeXML (Some s1) = escapeXML (Some s2) -> s1 = s2.
Proof.
  rewrite !escapeXML_escapeString. revert s2.
  induction s1 as [|a s1 IH]; intros [|b s2] H; cbn [escapeString] in H.
  - reflexivity.
  - symmetry in H. now apply escapeChar_nonempty in H.
  - now apply escapeChar_nonempty in H.
  - apply escapeChar_head in H. destruct H as [-> H]. f_equal. now apply IH.
Qed.

Lemma escapeXML_injective_witness :
  ("a<b" = "a<b")%string.
Proof.
  apply (escapeXML_injective "a<b" "a<b"). reflexivity.
Defined.

End ExcelGeneratorFacts.

(** * Properties of the narrative service *)

Module GeminiServiceFacts.
Import GeminiService.

Lemma str_or_nonempty (a : option string) (b : string) :
  b <> EmptyString -> str_or a b <> EmptyString.
Proof. destruct a as [[|c s]|]; cbn; intros H; try exact H; discriminate. Qed.

(** X21. A failure of the remote call never reaches the caller as an
    exception: [analyzeStackupWithGemini] throws only if the client
    constructor does, and otherwise returns a non-empty text.  Without an
    API key it returns the fixed message without constructing a client or
    calling the service, and [handleRunAI] then settles with that text, no
    error and the loading flag cleared. *)
Theorem narrative_failures_are_text (w : World) (prompt : string)
    (prev : AIAnalysisResult) :
  (analyzeStackupWithGemini w prompt = Thrown <->
   exists key, API_KEY w = Some key /\ truthy (Some key) = true /\
               newGoogleGenAI w key = Thrown) /\
  (forall t, analyzeStackupWithGemini w prompt = Returned t ->
             t <> EmptyString /\
             snd (handleRunAI w prompt prev) = mkAIAnalysisResult t false None) /\
  (truthy (API_KEY w) = false ->
   analyzeStackupWithGemini w prompt
   = Returned "API Key is missing. Please check configuration."%string) /\
  isLoading (fst (handleRunAI w prompt prev)) = true /\
  isLoading (snd (handleRunAI w prompt prev)) = false.
Proof.
  unfold handleRunAI, analyzeStackupWithGemini, getAIClient. cbn [fst snd].
  destruct (API_KEY w) as [[|c s]|] eqn:Ek.
  - repeat split; try reflexivity; try discriminate.
    + intros (key & Hk & Ht & _). injection Hk as <-. discriminate.
    + injection H as <-. discriminate.
    + injection H as <-. reflexivity.
  - destruct (newGoogleGenAI w (String c s)) as [ai|] eqn:En.
    + destruct (generateContent w ai prompt) as [t0|] eqn:Eg;
        repeat split; try reflexivity; try discriminate.
      * intros (key & Hk & _ & Hn). injection Hk as <-. congruence.
      * injection H as <-. apply str_or_nonempty. discriminate.
      * injection H as <-. reflexivity.
      * intros (key & Hk & _ & Hn). injection Hk as <-. congruence.
      * injection H as <-. discriminate.
      * injection H as <-. reflexivity.
    + repeat split; try reflexivity; try discriminate.
      exists (String c s). repeat split. exact En.
  - repeat split; try reflexivity; try discriminate.
    + intros (key & Hk & _). discriminate.
    + injection H as <-. discriminate.
    + injection H as <-. reflexivity.
Qed.

Lemma narrative_failures_are_text_witness :
  analyzeStackupWithGemini
    (mkWorld None (fun k => Returned k) (fun _ _ => Thrown)) "p"
  = Returned "API Key is missing. Please check configuration."%string.
Proof.
  exact (proj1 (proj2 (proj2 (narrative_failures_are_text
           (mkWorld None (fun k => Returned k) (fun _ _ => Thrown)) "p"
           (mkAIAnalysisResult EmptyString false None)))) eq_refl).
Defined.

End GeminiServiceFacts.

(** * Further properties of the hole-fit calculator *)

Module HoleFitUIFacts.
Import HoleFit HoleFitFacts HoleFitUI.

(** X22. The status of an analysis is SAFE or FAIL; the value RISK of the
    declared type is never produced. *)
Theorem status_never_RISK (m : AssemblyType) (pin hole1 hole2 : PartDimension)
    (deviation : Deviation) :
  status (analysis m pin hole1 hole2 deviation) <> RISK.
Proof.
  unfold analysis. destruct m; cbn [status].
  - destruct (orb _ _); discriminate.
  - destruct (gtb _ _); discriminate.
Qed.





Lemma sqrt_zero_deviation : sqrt (0 ^ 2 + 0 ^ 2) = 0.
Proof. replace (0 ^ 2 + 0 ^ 2) with 0 by (cbn [pow]; lra). apply sqrt_0. Qed.

Lemma gtb_false (a b : number) : a <= b -> gtb a b = false.
Proof. apply gtb_false_iff. Qed.

Lemma find_absent (id : string) (l : list Scenario) :
  Forall (fun s => s_id s <> id) l ->
  find (fun s => String.eqb (s_id s) id) l = None.
Proof.
  induction 1 as [| s l Hs _ IH]; cbn [find]; [reflexivity|].
  apply String.eqb_neq in Hs. now rewrite Hs.
Qed.

(** X25. [handleLoadScenario] leaves the state alone for an id that is not
    in the table; for each id of the table it loads a state with zero
    deviation whose analysis is SAFE and reports no interference. *)
Theorem handleLoadScenario_safe (id : string) (st : State) :
  (Forall (fun s => s_id s <> id) HOLE_SCENARIOS ->
   handleLoadScenario id st = st) /\
  (Exists (fun s => s_id s = id) HOLE_SCENARIOS ->
   deviation (handleLoadScenario id st) = mkDeviation 0 0 /\
   status (analysisOf (handleLoadScenario id st)) = SAFE /\
   isSimulationInterference (analysisOf (handleLoadScenario id st)) = false).
Proof.
  split.
  - intros H. unfold handleLoadScenario.
    now rewrite (find_absent id HOLE_SCENARIOS H).
  - intros H. unfold HOLE_SCENARIOS in H.
    repeat match goal with
           | H : Exists _ (_ :: _) |- _ =>
               apply Exists_cons in H; destruct H as [H | H]
           | H : Exists _ [] |- _ => apply Exists_nil in H; contradiction
           end;
      cbn [s_id] in H; subst id;
      unfold handleLoadScenario, analysisOf; cbn [find HOLE_SCENARIOS s_id
        String.eqb Ascii.eqb Bool.eqb s_unit s_mode s_pin s_hole1 s_hole2
        mode pin hole1 hole2 deviation];
      unfold analysis;
      cbn [status isSimulationInterference nominal tolPlus tolMinus tpSpec
           x y];
      rewrite sqrt_zero_deviation;
      (split; [reflexivity|]);
      rewrite ?(gtb_false 0.50), ?(gtb_false 0.015), ?(gtb_false (0.40 + 0.40)),
        ?(gtb_false 0) by lra;
      split; reflexivity.
Qed.

Lemma handleLoadScenario_safe_witness :
  status (analysisOf (handleLoadScenario "m8_fixed" DEFAULT_STATE)) = SAFE.
Proof.
  refine (proj1 (proj2 (proj2 (handleLoadScenario_safe "m8_fixed" DEFAULT_STATE)
            _))).
  apply Exists_cons_tl, Exists_cons_hd. reflexivity.
Defined.

(** X26. In FLOATING mode, position tolerances that are both within the
    reported allowable tolerance give SAFE; the converse holds when the two
    holes have the same clearance, and fails otherwise: a hole with more
    clearance may carry a larger tolerance than the reported one. *)
Theorem floating_spec_against_reported :
  (forall (pin hole1 hole2 : PartDimension) (deviation : Deviation),
     let a := analysis FLOATING pin hole1 hole2 deviation in
     (Rmax (tpSpec hole1) (tpSpec hole2) <= maxAllowableTP a ->
      status a = SAFE) /\
     (nominal hole1 - tolMinus hole1 = nominal hole2 - tolMinus hole2 ->
      status a = SAFE ->
      Rmax (tpSpec hole1) (tpSpec hole2) <= maxAllowableTP a)) /\
  (exists (pin hole1 hole2 : PartDimension) (deviation : Deviation),
     let a := analysis FLOATING pin hole1 hole2 deviation in
     status a = SAFE /\ maxAllowableTP a < Rmax (tpSpec hole1) (tpSpec hole2)).
Proof.
  split.
  - intros pin hole1 hole2 deviation a. subst a.
    unfold analysis. cbn [status maxAllowableTP].
    set (c1 := nominal hole1 - tolMinus hole1 - (nominal pin + tolPlus pin)).
    set (c2 := nominal hole2 - tolMinus hole2 - (nominal pin + tolPlus pin)).
    pose proof (Rmax_l (tpSpec hole1) (tpSpec hole2)) as Hl.
    pose proof (Rmax_r (tpSpec hole1) (tpSpec hole2)) as Hr.
    pose proof (Rmin_l c1 c2) as Hml. pose proof (Rmin_r c1 c2) as Hmr.
    split.
    + intros H.
      rewrite (gtb_false (tpSpec hole1) c1), (gtb_false (tpSpec hole2) c2)
        by lra.
      reflexivity.
    + intros He Hs.
      assert (Hc : c1 = c2) by (unfold c1, c2; lra).
      destruct (gtb (tpSpec hole1) c1) eqn:E1; [discriminate|].
      destruct (gtb (tpSpec hole2) c2) eqn:E2; [discriminate|].
      apply gtb_false_iff in E1, E2.
      rewrite Hc in *. rewrite Rmin_left by lra.
      apply Rmax_lub; lra.
  - exists (mkPartDimension 6 0 0 0), (mkPartDimension 6.6 0 0 0.5),
      (mkPartDimension 6.2 0 0 0.1), (mkDeviation 0 0).
    unfold analysis.
    cbn [status maxAllowableTP nominal tolPlus tolMinus tpSpec].
    rewrite (gtb_false 0.5), (gtb_false 0.1) by lra.
    split; [reflexivity|].
    rewrite Rmin_right, Rmax_left by lra. lra.
Qed.

Lemma floating_spec_against_reported_witness :
  status (analysis FLOATING m6_pin m6_hole m6_hole (mkDeviation 0 0)) = SAFE.
Proof.
  refine (proj1 (proj1 floating_spec_against_reported m6_pin m6_hole m6_hole
                   (mkDeviation 0 0)) _).
  unfold analysis, m6_pin, m6_hole.
  cbn [maxAllowableTP nominal tolPlus tolMinus tpSpec].
  rewrite Rmax_left, Rmin_left by lra. lra.
Defined.

(** ** Drift of the unit toggle *)

Lemma Rabs_le_bounds (a b : number) : Rabs a <= b -> - b <= a <= b.
Proof. unfold Rabs. destruct (Rcase_abs a); lra. Qed.

Lemma toFixed_error (v : number) (f : nat) :
  Rabs (toFixed v f - v) <= / 2 / 10 ^ f.
Proof. destruct (toFixed_rounds v f) as (n & _ & H). exact H. Qed.

(** X27. A round trip from millimetres to inches and back moves a value by
    at most 0.00177 mm; a round trip from inches to millimetres and back
    moves it by at most 0.00007 in. *)
Theorem toggle_drift_bounded (v : number) :
  Rabs (cvt MM (cvt INCH v) - v) <= 0.00177 /\
  Rabs (cvt INCH (cvt MM v) - v) <= 0.00007.
Proof.
  unfold cvt, factor, precision. split.
  - pose proof (toFixed_error (v * (1 / 25.4)) 4) as H1.
    pose proof (toFixed_error (toFixed (v * (1 / 25.4)) 4 * 25.4) 3) as H2.
    set (u := toFixed (v * (1 / 25.4)) 4) in *.
    set (w := toFixed (u * 25.4) 3) in *.
    cbn [pow] in H1, H2.
    apply Rabs_le. apply Rabs_le_bounds in H1, H2. lra.
  - pose proof (toFixed_error (v * 25.4) 3) as H1.
    pose proof (toFixed_error (toFixed (v * 25.4) 3 * (1 / 25.4)) 4) as H2.
    set (u := toFixed (v * 25.4) 3) in *.
    set (w := toFixed (u * (1 / 25.4)) 4) in *.
    cbn [pow] in H1, H2.
    apply Rabs_le. apply Rabs_le_bounds in H1, H2. lra.
Qed.

(** A value close enough to [k] units is rounded to [k] units. *)
Lemma toFixed_near (v : number) (f : nat) (k : Z) :
  Rabs (v * 10 ^ f - IZR k) < / 2 -> toFixed v f = IZR k / 10 ^ f.
Proof.
  intros H. apply Rabs_def2 in H. destruct H as [H1 H2].
  assert (Hs : 0 < 10 ^ f) by (apply pow_lt; lra).
  unfold toFixed. destruct (Rlt_dec v 0).
  - rewrite (Zfloor_eq (- k)).
    + rewrite opp_IZR. field. lra.
    + rewrite opp_IZR. lra.
  - rewrite (Zfloor_eq k); [reflexivity | lra].
Qed.

(** Inches with four decimals survive the trip through millimetres. *)
Lemma inch_mm_inch (k : Z) :
  cvt INCH (cvt MM (IZR k / 10 ^ 4)) = IZR k / 10 ^ 4.
Proof.
  unfold cvt, factor, precision.
  pose proof (toFixed_error (IZR k / 10 ^ 4 * 25.4) 3) as H.
  set (w := toFixed (IZR k / 10 ^ 4 * 25.4) 3) in *.
  apply toFixed_near. cbn [pow] in *.
  apply Rabs_le_bounds in H. apply Rabs_def1; lra.
Qed.

Lemma cvt_stable (v : number) :
  cvt INCH (cvt MM (cvt INCH v)) = cvt INCH v.
Proof.
  destruct (toFixed_rounds (v * factor INCH) (precision INCH)) as (k & Hk & _).
  assert (E : cvt INCH v = IZR k / 10 ^ 4) by exact Hk.
  rewrite E. apply inch_mm_inch.
Qed.

Lemma cvtPart_stable (p : PartDimension) :
  cvtPart INCH (cvtPart MM (cvtPart INCH p)) = cvtPart INCH p.
Proof.
  unfold cvtPart. cbn [nominal tolPlus tolMinus tpSpec].
  now rewrite !cvt_stable.
Qed.

(** X28. The drift of the unit toggle does not build up: a value that has
    been converted to inches comes back unchanged from a further trip
    through millimetres, so for a state in millimetres three toggles give
    the same state as one. *)
Theorem toggle_drift_settles :
  (forall v : number, cvt INCH (cvt MM (cvt INCH v)) = cvt INCH v) /\
  (forall st : State,
     unit st = MM -> toggleThrice st = handleToggleUnit st).
Proof.
  split; [exact cvt_stable|].
  intros [u m p h1 h2 [dx dy]] Hu. cbn [unit] in Hu. subst u.
  unfold toggleThrice, handleToggleUnit.
  cbn [unit mode pin hole1 hole2 deviation x y toggled].
  now rewrite !cvtPart_stable, !cvt_stable.
Qed.

Lemma toggle_drift_settles_witness :
  toggleThrice DEFAULT_STATE = handleToggleUnit DEFAULT_STATE.
Proof.
  apply (proj2 toggle_drift_settles DEFAULT_STATE). reflexivity.
Defined.

End HoleFitUIFacts.

(** * Properties of the hole fit in binary64 *)

Module HoleFit64Facts.
Import Binary64 HoleFit64.

(** No number is greater than itself. *)
Lemma gt_irrefl (a : spec_float) : gt a a = false.
Proof.
  unfold gt, SFltb. destruct a as [s | s | | s m e]; cbn.
  - reflexivity.
  - destruct s; reflexivity.
  - reflexivity.
  - destruct s; rewrite Z.compare_refl, Pos.compare_cont_refl; reflexivity.
Qed.

(** [Math_min] returns one of its operands unless one of them is NaN. *)
Lemma Math_min_operand (a b : spec_float) :
  Math_min a b = a \/ Math_min a b = b \/ Math_min a b = S754_nan.
Proof.
  unfold Math_min.
  destruct a as [sa | sa | | sa ma ea], b as [sb | sb | | sb mb eb];
    try (right; right; reflexivity);
    repeat match goal with
           | |- context [if ?c then _ else _] => destruct c
           | |- context [match ?s with true => _ | false => _ end] =>
               destruct s
           end;
    auto.
Qed.

Lemma SFltb_asym (a b : spec_float) : SFltb a b = true -> SFltb b a = false.
Proof.
  unfold SFltb.
  destruct a as [sa | sa | | sa ma ea], b as [sb | sb | | sb mb eb]; cbn;
    try discriminate; try reflexivity;
    try (destruct sa; try destruct sb; (discriminate || reflexivity)).
  destruct sa, sb; try discriminate; try reflexivity;
    rewrite (Z.compare_antisym ea eb);
    destruct (Z.compare ea eb); cbn; try discriminate; try reflexivity;
    change (Pos.compare_cont Eq mb ma)
      with (Pos.compare_cont (CompOpp Eq) mb ma);
    rewrite <- (Pos.compare_cont_antisym ma mb Eq);
    destruct (Pos.compare_cont Eq ma mb); cbn; discriminate || reflexivity.
Qed.

(** [Math_min] is greater than neither operand. *)
Lemma Math_min_lower (a b : spec_float) :
  gt (Math_min a b) a = false /\ gt (Math_min a b) b = false.
Proof.
  pose proof (gt_irrefl a) as Ia. pose proof (gt_irrefl b) as Ib.
  unfold gt in *.
  destruct (SFltb a b) eqn:Hab; destruct (SFltb b a) eqn:Hba;
    try (apply SFltb_asym in Hab; congruence);
    unfold Math_min;
    destruct a as [sa | sa | | sa ma ea] eqn:Ea;
    destruct b as [sb | sb | | sb mb eb] eqn:Eb;
    try (cbn in Hab; discriminate Hab); try (cbn in Hba; discriminate Hba);
    try (split; reflexivity);
    rewrite ?Hab, ?Hba;
    try (destruct sa); try (destruct sb);
    split; assumption || reflexivity.
Qed.

(** The M6 clearance in binary64: three units in the last place below the
    number read from [0.60]. *)
Lemma m6_clearance :
  sub (lit 660 2) (lit 600 2) = S754_finite false 5404319552844592 (-53) /\
  lit 60 2 = S754_finite false 5404319552844595 (-53).
Proof. split; vm_compute; reflexivity. Qed.

(** C5. In FLOATING mode the reported allowable position tolerance is the
    smaller of the two per-hole clearances, each computed as hole MMC
    minus pin MMC (it is one of them and greater than neither, or NaN when
    one of them is), and the status is FAIL exactly when one of the holes
    has a position tolerance greater than its own clearance, SAFE
    otherwise.  On the M6 scenario the pin MMC is 6.00, the hole MMC 6.60,
    the allowable tolerance is the binary64 difference 6.6 - 6, which is
    0.60 at two decimals, and the status is SAFE. *)
Theorem floating_fit :
  (forall (pin hole1 hole2 : PartDimension) (deviation : Deviation),
     let a := computeFit pin hole1 hole2 HoleFit.FLOATING deviation in
     let c1 := sub (sub (nominal hole1) (tolMinus hole1))
                   (add (nominal pin) (tolPlus pin)) in
     let c2 := sub (sub (nominal hole2) (tolMinus hole2))
                   (add (nominal pin) (tolPlus pin)) in
     maxAllowableTP a = Math_min c1 c2 /\
     (maxAllowableTP a = c1 \/ maxAllowableTP a = c2
      \/ maxAllowableTP a = S754_nan) /\
     gt (maxAllowableTP a) c1 = false /\ gt (maxAllowableTP a) c2 = false /\
     (status a = HoleFit.FAIL
      <-> gt (tpSpec hole1) c1 = true \/ gt (tpSpec hole2) c2 = true) /\
     (status a = HoleFit.SAFE
      <-> ~ (gt (tpSpec hole1) c1 = true \/ gt (tpSpec hole2) c2 = true))) /\
  (forall deviation : Deviation,
     let a := computeFit m6_pin m6_hole m6_hole HoleFit.FLOATING deviation in
     pinMMC a = lit 600 2 /\ h1MMC a = lit 660 2 /\
     maxAllowableTP a = sub (lit 660 2) (lit 600 2) /\
     toFixed (maxAllowableTP a) 2 = lit 60 2 /\
     status a = HoleFit.SAFE).
Proof.
  split.
  - intros pin hole1 hole2 deviation a c1 c2. subst a.
    unfold computeFit, analysis. cbn [maxAllowableTP status].
    fold c1 c2. split; [reflexivity|].
    split; [apply Math_min_operand|].
    split; [apply Math_min_lower|]. split; [apply Math_min_lower|].
    destruct (gt (tpSpec hole1) c1), (gt (tpSpec hole2) c2); cbn [orb];
      split; split; intros H; try reflexivity; try discriminate;
      try (left; reflexivity); try (right; reflexivity);
      try (exfalso; apply H; left; reflexivity);
      try (exfalso; apply H; right; reflexivity);
      try (destruct H; discriminate);
      try (intros [? | ?]; discriminate).
  - intros deviation a. subst a. unfold computeFit, analysis.
    cbn [pinMMC h1MMC maxAllowableTP status].
    repeat split; vm_compute; reflexivity.
Qed.

(** At the boundary the binary64 difference decides: with pin 6, holes
    6.6 and a declared tolerance 0.6 the clearance is below 0.6 and the
    status is FAIL. *)
Lemma floating_boundary_example :
  status (computeFit (mkPartDimension (lit 6 0) (lit 0 0) (lit 0 0) (lit 0 0))
            (mkPartDimension (lit 66 1) (lit 0 0) (lit 0 0) (lit 6 1))
            (mkPartDimension (lit 66 1) (lit 0 0) (lit 0 0) (lit 6 1))
            HoleFit.FLOATING (mkDeviation (lit 0 0) (lit 0 0)))
  = HoleFit.FAIL.
Proof. vm_compute. reflexivity. Qed.

(** C6. In FIXED mode the budget is hole 1's MMC minus the pin's MMC, the
    reported allowable position tolerance is half of it, and the status is
    FAIL exactly when the sum of the two position tolerances is greater
    than the budget, SAFE otherwise; hole 2's nominal and size tolerances
    do not enter the result.  On the M8 scenario the pin MMC is 8.00,
    hole 1's MMC 9.00, the budget 1.00, the allowable tolerance 0.50 and
    the status SAFE. *)
Theorem fixed_fit :
  (forall (pin hole1 hole2 : PartDimension) (deviation : Deviation),
     let a := computeFit pin hole1 hole2 HoleFit.FIXED deviation in
     let totalBudget := sub (sub (nominal hole1) (tolMinus hole1))
                            (add (nominal pin) (tolPlus pin)) in
     maxAllowableTP a = div totalBudget (of_Z 2) /\
     (status a = HoleFit.FAIL
      <-> gt (add (tpSpec hole1) (tpSpec hole2)) totalBudget = true) /\
     (status a = HoleFit.SAFE
      <-> gt (add (tpSpec hole1) (tpSpec hole2)) totalBudget <> true) /\
     (forall n p m : spec_float,
        computeFit pin hole1 (mkPartDimension n p m (tpSpec hole2))
          HoleFit.FIXED deviation = a)) /\
  (forall deviation : Deviation,
     let a := computeFit m8_pin m8_hole1 m8_hole2 HoleFit.FIXED deviation in
     pinMMC a = lit 800 2 /\ h1MMC a = lit 900 2 /\
     sub (h1MMC a) (pinMMC a) = lit 100 2 /\
     maxAllowableTP a = lit 50 2 /\ status a = HoleFit.SAFE).
Proof.
  split.
  - intros pin hole1 hole2 deviation a totalBudget. subst a.
    unfold computeFit, analysis. cbn [maxAllowableTP status tpSpec].
    fold totalBudget. split; [reflexivity|].
    destruct (gt (add (tpSpec hole1) (tpSpec hole2)) totalBudget);
      split; [split | split; [split|] | split | split; [split|]];
      intros; try reflexivity; try discriminate; try congruence.
  - intros deviation a. subst a. unfold computeFit, analysis.
    cbn [pinMMC h1MMC maxAllowableTP status].
    repeat split; vm_compute; reflexivity.
Qed.

(** In FIXED mode too the binary64 values decide: with pin 6, hole 1 6.6
    and tolerances 0.3 + 0.3 the budget is below the sum and the status is
    FAIL. *)
Lemma fixed_boundary_example :
  status (computeFit (mkPartDimension (lit 6 0) (lit 0 0) (lit 0 0) (lit 0 0))
            (mkPartDimension (lit 66 1) (lit 0 0) (lit 0 0) (lit 3 1))
            (mkPartDimension (lit 6 0) (lit 0 0) (lit 0 0) (lit 3 1))
            HoleFit.FIXED (mkDeviation (lit 0 0) (lit 0 0)))
  = HoleFit.FAIL.
Proof. vm_compute. reflexivity. Qed.

(** ** Misalignment simulation *)

(** C7. In both modes the simulated radial offset is the square root of
    the sum of the squared deviations, the true-position diameter is twice
    the offset, the radial clearance is half of hole 1's MMC minus the
    pin's MMC, and interference is reported exactly when the offset is
    greater than the clearance; when the two are equal no interference is
    reported. *)
Theorem misalignment_simulation (mode : HoleFit.AssemblyType)
    (pin hole1 hole2 : PartDimension) (deviation : Deviation) :
  let a := computeFit pin hole1 hole2 mode deviation in
  actualOffset a
    = sqrt (add (mul (x deviation) (x deviation))
                (mul (y deviation) (y deviation))) /\
  actualTP a = mul (of_Z 2) (actualOffset a) /\
  radialClearance a
    = div (sub (sub (nominal hole1) (tolMinus hole1))
               (add (nominal pin) (tolPlus pin))) (of_Z 2) /\
  (isSimulationInterference a = true
   <-> gt (actualOffset a) (radialClearance a) = true) /\
  (actualOffset a = radialClearance a -> isSimulationInterference a = false).
Proof.
  intros a. subst a. unfold computeFit, analysis.
  destruct mode;
    cbn [actualOffset actualTP radialClearance isSimulationInterference];
    (split; [reflexivity|]); (split; [reflexivity|]);
    (split; [reflexivity|]); (split; [reflexivity|]);
    intros H; rewrite H; apply gt_irrefl.
Qed.

(** The boundary is reached with pin 6, hole 16 and deviation (3, -4):
    offset and clearance are both 5 and no interference is reported. *)
Lemma misalignment_simulation_witness :
  actualOffset
    (computeFit (mkPartDimension (lit 6 0) (lit 0 0) (lit 0 0) (lit 0 0))
       (mkPartDimension (lit 16 0) (lit 0 0) (lit 0 0) (lit 0 0))
       (mkPartDimension (lit 16 0) (lit 0 0) (lit 0 0) (lit 0 0))
       HoleFit.FLOATING (mkDeviation (lit 3 0) (lit (-4) 0)))
  = lit 5 0 /\
  isSimulationInterference
    (computeFit (mkPartDimension (lit 6 0) (lit 0 0) (lit 0 0) (lit 0 0))
       (mkPartDimension (lit 16 0) (lit 0 0) (lit 0 0) (lit 0 0))
       (mkPartDimension (lit 16 0) (lit 0 0) (lit 0 0) (lit 0 0))
       HoleFit.FLOATING (mkDeviation (lit 3 0) (lit (-4) 0)))
  = false.
Proof.
  split; [vm_compute; reflexivity|].
  apply (misalignment_simulation HoleFit.FLOATING
           (mkPartDimension (lit 6 0) (lit 0 0) (lit 0 0) (lit 0 0))
           (mkPartDimension (lit 16 0) (lit 0 0) (lit 0 0) (lit 0 0))
           (mkPartDimension (lit 16 0) (lit 0 0) (lit 0 0) (lit 0 0))
           (mkDeviation (lit 3 0) (lit (-4) 0))).
  vm_compute. reflexivity.
Defined.

(** On the M6 scenario the deviation (0.3, 0) already interferes: the
    offset is 0.3 and the binary64 clearance is just below it. *)
Lemma m6_boundary_example :
  isSimulationInterference
    (computeFit m6_pin m6_hole m6_hole HoleFit.FLOATING
       (mkDeviation (lit 3 1) (lit 0 0))) = true.
Proof. vm_compute. reflexivity. Qed.

(** ** Unit conversion *)

(** The digits of [toFixed]: the nearest integer number of units, the
    larger one on a tie. *)
Lemma units_nearest (m : positive) (e : Z) (p : nat) :
  match e with
  | Zneg k =>
      (- 2 ^ Zpos k
       <= 2 * (Zpos m * 10 ^ Z.of_nat p) - 2 ^ (Zpos k + 1) * units m e p
       < 2 ^ Zpos k)%Z
  | _ => units m e p = (Zpos m * 10 ^ Z.of_nat p * 2 ^ e)%Z
  end.
Proof.
  destruct e as [| k | k]; try reflexivity.
  unfold units.
  set (a := (Zpos m * 10 ^ Z.of_nat p)%Z).
  assert (Hk : (0 < 2 ^ Zpos k)%Z) by (apply Z.pow_pos_nonneg; lia).
  assert (Hs : (2 ^ (Zpos k + 1) = 2 * 2 ^ Zpos k)%Z).
  { rewrite Z.pow_add_r by lia. rewrite Z.pow_1_r. lia. }
  rewrite Hs.
  pose proof (Z.div_mod (2 * a + 2 ^ Zpos k) (2 * 2 ^ Zpos k) ltac:(lia)) as Hd.
  pose proof (Z.mod_pos_bound (2 * a + 2 ^ Zpos k) (2 * 2 ^ Zpos k) ltac:(lia))
    as Hm.
  lia.
Qed.

(** The decimal product of a tie can fall on either side in binary64:
    0.0625 in gives 1.587 mm although 0.0625 * 25.4 = 1.5875, and
    0.00381 mm gives 0.0001 in although 0.00381 / 25.4 = 0.00015. *)
Lemma cvt_tie_examples :
  cvt HoleFit.MM (lit 625 4) = lit 1587 3 /\
  cvt HoleFit.INCH (lit 381 5) = lit 1 4.
Proof. split; vm_compute; reflexivity. Qed.

(** C9. Converting to inches maps a value to its binary64 product with
    1 / 25.4 rounded to 4 decimals, converting to millimetres maps it to
    its binary64 product with 25.4 rounded to 3 decimals, where rounding
    takes the nearest number of decimal units, the larger on a tie, and
    reads the decimal back as a binary64 number.  [handleToggleUnit]
    converts every field of the three parts and of the deviation, and the
    round trip is lossy: the default state comes back from two toggles with
    6.6 turned into 6.599, and 6.6 mm alone goes to 0.2598 in and back to
    6.599 mm. *)
Theorem unit_conversion_lossy :
  (forall v : spec_float,
     cvt HoleFit.INCH v = toFixed (mul v (div (of_Z 1) (lit 254 1))) 4) /\
  (forall v : spec_float,
     cvt HoleFit.MM v = toFixed (mul v (lit 254 1)) 3) /\
  (forall (s : bool) (m : positive) (e : Z) (p : nat),
     toFixed (S754_finite s m e) p
     = (if SFleb (of_Z (10 ^ 21)) (S754_finite false m e)
        then S754_finite s m e
        else match units m e p with
             | Zpos n => decimal s n p
             | _ => S754_zero s
             end) /\
     match e with
     | Zneg k =>
         (- 2 ^ Zpos k
          <= 2 * (Zpos m * 10 ^ Z.of_nat p) - 2 ^ (Zpos k + 1) * units m e p
          < 2 ^ Zpos k)%Z
     | _ => units m e p = (Zpos m * 10 ^ Z.of_nat p * 2 ^ e)%Z
     end) /\
  (forall st : State,
     handleToggleUnit st
     = mkState (HoleFit.toggled (unit st)) (mode st)
         (cvtPart (HoleFit.toggled (unit st)) (pin st))
         (cvtPart (HoleFit.toggled (unit st)) (hole1 st))
         (cvtPart (HoleFit.toggled (unit st)) (hole2 st))
         (mkDeviation (cvt (HoleFit.toggled (unit st)) (x (deviation st)))
                      (cvt (HoleFit.toggled (unit st)) (y (deviation st))))) /\
  handleToggleUnit DEFAULT_STATE
  = mkState HoleFit.INCH HoleFit.FLOATING
      (mkPartDimension (lit 2362 4) (lit 0 0) (lit 39 4) (lit 0 0))
      (mkPartDimension (lit 2598 4) (lit 79 4) (lit 0 0) (lit 197 4))
      (mkPartDimension (lit 2598 4) (lit 79 4) (lit 0 0) (lit 197 4))
      (mkDeviation (lit 39 4) (lit 39 4)) /\
  handleToggleUnit (handleToggleUnit DEFAULT_STATE)
  = mkState HoleFit.MM HoleFit.FLOATING
      (mkPartDimension (lit 5999 3) (lit 0 0) (lit 99 3) (lit 0 0))
      (mkPartDimension (lit 6599 3) (lit 201 3) (lit 0 0) (lit 5 1))
      (mkPartDimension (lit 6599 3) (lit 201 3) (lit 0 0) (lit 5 1))
      (mkDeviation (lit 99 3) (lit 99 3)) /\
  cvt HoleFit.INCH (lit 66 1) = lit 2598 4 /\
  cvt HoleFit.MM (lit 2598 4) = lit 6599 3 /\
  (exists v : spec_float, cvt HoleFit.MM (cvt HoleFit.INCH v) <> v).
Proof.
  split; [reflexivity|]. split; [reflexivity|].
  split; [intros s m e p; split; [reflexivity | apply units_nearest]|].
  split; [reflexivity|].
  split; [vm_compute; reflexivity|]. split; [vm_compute; reflexivity|].
  split; [vm_compute; reflexivity|]. split; [vm_compute; reflexivity|].
  exists (lit 66 1). vm_compute. discriminate.
Qed.

End HoleFit64Facts.
